(** * Onnx_Segmentor: mask resampling, boundary tracing and export

    A shallow embedding of the algorithmic parts of [src/App.tsx]: the
    prompt-point feeds and the nearest-neighbour mask upscale of [run], the
    overlay painting of [draw], the binary mask of [exportPNG] and the border
    walk of [exportPolygon].

    JavaScript integers (loop counters, pixel coordinates, byte values) are
    modelled as [Z]; typed arrays as lists read and written by a [Z] index,
    with a read outside the array giving [None] (JavaScript's [undefined])
    and a write outside the array being ignored. The scores of the mask
    tensor and the arithmetic of the coordinate mapping are IEEE binary64
    values, the elements of a [Float32Array] binary32 values, both as
    [spec_float]. *)

From Stdlib Require Import ZArith Lia Bool String.
From Stdlib Require Import Floats.SpecFloat.
From stdpp Require Import base list strings gmap.

Local Open Scope Z_scope.

(** ** Typed arrays and loops *)

Module TypedArray.

(** [a[i]]: [undefined] when [i] is negative or past the end. *)
Definition get {A} (a : list A) (i : Z) : option A :=
  if i <? 0 then None else a !! Z.to_nat i.

(** [a[i] = v]: silently ignored outside the array. *)
Definition put {A} (a : list A) (i : Z) (v : A) : list A :=
  if i <? 0 then a else <[Z.to_nat i := v]> a.

(** [a[i] > 0] on a byte array; [undefined > 0] is [false]. *)
Definition gt0 (o : option Z) : bool :=
  match o with
  | Some v => 0 <? v
  | None => false
  end.

End TypedArray.

(** [for (let i = i0; i < i0 + n; i++) s = f(i, s)] *)
Fixpoint for_loop {St : Type} (n : nat) (i : Z) (f : Z -> St -> St) (s : St) : St :=
  match n with
  | O => s
  | S n' => for_loop n' (i + 1) f (f i s)
  end.

(** ** Numbers

    A JavaScript number is a binary64 value; [Float32Array] elements are
    binary32 values. *)

Module Num.

Definition prec64 : Z := 53.
Definition emax64 : Z := 1024.
Definition prec32 : Z := 24.
Definition emax32 : Z := 128.

(** The number holding the integer [n] (rounded when [n] does not fit). *)
Definition of_int (n : Z) : spec_float := binary_normalize prec64 emax64 n 0 false.

(** The value a [Float32Array] keeps when the integer [n] is stored. *)
Definition f32_of_int (n : Z) : spec_float := binary_normalize prec32 emax32 n 0 false.

Definition div : spec_float -> spec_float -> spec_float := SFdiv prec64 emax64.
Definition mul : spec_float -> spec_float -> spec_float := SFmul prec64 emax64.

(** [Math.floor], read as an array index: [NaN] and the infinities index
    nothing. A shift by a negative amount is a flooring division. *)
Definition floor (f : spec_float) : option Z :=
  match f with
  | S754_zero _ => Some 0
  | S754_finite s m e => Some (Z.shiftl (if s then Z.neg m else Z.pos m) e)
  | S754_infinity _ | S754_nan => None
  end.

Definition sub : spec_float -> spec_float -> spec_float := SFsub prec64 emax64.

(** The decimal literal [n / 10^k]: the number nearest to it. *)
Definition decimal (n k : Z) : spec_float := div (of_int n) (of_int (10 ^ k)).

(** The value a [Float32Array] keeps when the number [f] is stored:
    [f] rounded to binary32. *)
Definition to_f32 (f : spec_float) : spec_float := SFldexp prec32 emax32 f 0.

(** The integer a number holds, if it holds one. *)
Definition to_int (f : spec_float) : option Z :=
  match f with
  | S754_zero _ => Some 0
  | S754_finite s m e =>
      let v := if s then Z.neg m else Z.pos m in
      if 0 <=? e then Some (v * 2 ^ e)
      else if v mod 2 ^ (- e) =? 0 then Some (v / 2 ^ (- e))
      else None
  | S754_infinity _ | S754_nan => None
  end.

(** [v > 0.0], with [undefined > 0.0] being [false]. *)
Definition gt_zero (v : option spec_float) : bool :=
  match v with
  | Some f => SFltb (S754_zero false) f
  | None => false
  end.

(** [f] is the positive number [M * 2^E] with a full 53-digit mantissa. *)
Definition normal (f : spec_float) (M E : Z) : Prop :=
  f = S754_finite false (Z.to_pos M) E /\ 2 ^ 52 <= M < 2 ^ 53.

(** What a mantissa [m] rounded up after cutting [n] digits (from location
    [l] when none is cut) tells: at least half a unit was cut off. *)
Definition half_cut (m n : Z) (l : location) : Prop :=
  if n =? 0 then l = loc_Inexact Eq \/ l = loc_Inexact Gt
  else 2 ^ (n - 1) <= m mod 2 ^ n.

End Num.

(** ** Image buffers

    [ImageData]: [width], [height] and the RGBA bytes, four per pixel,
    row-major. *)

Record ImageData := mkImageData {
  width : Z;
  height : Z;
  data : list Z
}.

(** [new ImageData(w, h)]: transparent black. *)
Definition new_ImageData (w h : Z) : ImageData :=
  {| width := w; height := h; data := replicate (Z.to_nat (4 * w * h)) 0 |}.

(** The invariant the browser keeps for every [ImageData]: positive
    dimensions and [4 * width * height] bytes. *)
Definition wf_image (id : ImageData) : Prop :=
  0 < width id /\ 0 < height id /\
  Z.of_nat (length (data id)) = 4 * width id * height id.

(** The four bytes of pixel [(x, y)]. *)
Definition rgba (id : ImageData) (x y : Z) : list (option Z) :=
  let i := (y * width id + x) * 4 in
  [TypedArray.get (data id) i; TypedArray.get (data id) (i + 1);
   TypedArray.get (data id) (i + 2); TypedArray.get (data id) (i + 3)].

(** An image from its alpha bytes, one per pixel, colour bytes zero. *)
Definition of_alpha (W H : Z) (a : list Z) : ImageData :=
  {| width := W; height := H; data := a ≫= (fun v => [0; 0; 0; v]) |}.

(** ** Session state *)

Record PromptPoint := mkPoint {
  px : Z;
  py : Z;
  label : Z                         (* 1=FG, 0=BG *)
}.

Record Tensor := mkTensor {
  dims : list Z;
  tdata : list spec_float
}.

Inductive run_error :=
| MaskNotFound                      (* "Output mask not found. Check IO_NAMES.masks" *)
| UnexpectedShape (d : list Z).     (* "Unexpected mask shape ..." *)

Record State := mkState {
  points : list PromptPoint;
  mask : option ImageData;
  error : option run_error
}.

(** ** [run]: feeds and mask upscale *)

Module Run.

(** [onCanvasClick]: the new point goes to the end of the list. *)
Definition add_point (pp : list PromptPoint) (p : PromptPoint) : list PromptPoint :=
  pp ++ [p].

(** The loop filling [coords] and [labels]; [points[i] ?? {x: 0, y: 0, label: 0}]. *)
Definition fill_point (pts : list PromptPoint) (i : Z)
    (cl : list spec_float * list spec_float) : list spec_float * list spec_float :=
  let p := default (mkPoint 0 0 0) (TypedArray.get pts i) in
  let coords := TypedArray.put (fst cl) (i * 2 + 0) (Num.f32_of_int (px p)) in
  let coords := TypedArray.put coords (i * 2 + 1) (Num.f32_of_int (py p)) in
  (coords, TypedArray.put (snd cl) i (Num.f32_of_int (label p))).

(** [P], [pointCoords] and [pointLabels]. *)
Definition point_tensors (pts : list PromptPoint) : Tensor * Tensor :=
  let P := Z.max (Z.of_nat (length pts)) 1 in
  let coords := replicate (Z.to_nat (1 * P * 2)) (S754_zero false) in
  let labels := replicate (Z.to_nat (1 * P)) (S754_zero false) in
  let cl := for_loop (Z.to_nat P) 0 (fill_point pts) (coords, labels) in
  (mkTensor [1; P; 2] (fst cl), mkTensor [1; P] (snd cl)).

(** The [feeds] object, keyed by [IO_NAMES]. *)
Definition feeds (image : Tensor) (pts : list PromptPoint) : gmap string Tensor :=
  <["image" := image]>
    (<["point_coords" := fst (point_tensors pts)]>
       (<["point_labels" := snd (point_tensors pts)]> ∅)).

(** The mask shape with batch and channel stripped: rank 4, 3 or 2. *)
Definition mask_shape (d : list Z) : option (Z * Z) :=
  match d with
  | [_; _; h; w] => Some (h, w)
  | [_; h; w] => Some (h, w)
  | [h; w] => Some (h, w)
  | _ => None
  end.

(** [Math.floor((x / imgW) * MW)] *)
Definition src_coord (x size msize : Z) : option Z :=
  Num.floor (Num.mul (Num.div (Num.of_int x) (Num.of_int size)) (Num.of_int msize)).

(** [m.data[srcY * MW + srcX]]; an index that is not a number reads
    [undefined]. *)
Definition sample (d : list spec_float) (MW : Z) (srcX srcY : option Z) : option spec_float :=
  match srcX, srcY with
  | Some sx, Some sy => TypedArray.get d (sy * MW + sx)
  | _, _ => None
  end.

(** [Math.max(0, Math.min(255, Math.round((v > 0.0 ? 1 : 0) * 110)))] *)
Definition alpha_of (v : option spec_float) : Z :=
  Z.max 0 (Z.min 255 ((if Num.gt_zero v then 1 else 0) * 110)).

(** The body of the two nested loops for destination pixel [(x, y)]. *)
Definition upscale_pixel (m : Tensor) (MH MW imgW imgH y x : Z) (d : list Z) : list Z :=
  let srcX := src_coord x imgW MW in
  let srcY := src_coord y imgH MH in
  let v := sample (tdata m) MW srcX srcY in
  let a := alpha_of v in
  let idx := (y * imgW + x) * 4 in
  let d := TypedArray.put d (idx + 0) 0 in
  let d := TypedArray.put d (idx + 1) 0 in
  let d := TypedArray.put d (idx + 2) 0 in
  TypedArray.put d (idx + 3) a.

(** [maskImg] after the nested loops. *)
Definition upscale (m : Tensor) (MH MW imgW imgH : Z) : ImageData :=
  {| width := imgW; height := imgH;
     data :=
       for_loop (Z.to_nat imgH) 0
         (fun y d => for_loop (Z.to_nat imgW) 0 (upscale_pixel m MH MW imgW imgH y) d)
         (data (new_ImageData imgW imgH)) |}.

(** From the engine's output to [maskImg], or the error thrown on the way;
    [W], [H] are the dimensions of the image canvas. *)
Definition postprocess (out : gmap string Tensor) (W H : Z) : run_error + ImageData :=
  match out !! "masks" with
  | None => inl MaskNotFound
  | Some m =>
      match mask_shape (dims m) with
      | None => inl (UnexpectedShape (dims m))
      | Some (MH, MW) => inr (upscale m MH MW W H)
      end
  end.

(** [run] once session, image and canvas exist: [engine] stands for
    [session.run], [image] for the tensor of the canvas. *)
Definition run (engine : gmap string Tensor -> gmap string Tensor)
    (image : Tensor) (W H : Z) (st : State) : State :=
  match postprocess (engine (feeds image (points st))) W H with
  | inr maskImg => {| points := points st; mask := Some maskImg; error := None |}
  | inl e => {| points := points st; mask := mask st; error := Some e |}
  end.

(** [undoPoint]: [pp.slice(0, -1)]; and [clearPoints]. *)
Definition undoPoint (pp : list PromptPoint) : list PromptPoint :=
  take (length pp - 1) pp.

Definition clearPoints (pp : list PromptPoint) : list PromptPoint := [].

(** [NORM.mean[c]] and [NORM.std[c]]; a missing entry is [undefined]. *)
Definition NORM_mean : list spec_float :=
  [Num.decimal 123675 3; Num.decimal 11628 2; Num.decimal 10353 2].
Definition NORM_std : list spec_float :=
  [Num.decimal 58395 3; Num.decimal 5712 2; Num.decimal 57375 3].

(** [(v - NORM.mean[c]) / NORM.std[c]] as stored into the [Float32Array];
    arithmetic on [undefined] gives [NaN]. *)
Definition normalise (c : Z) (v : option Z) : spec_float :=
  match v, TypedArray.get NORM_mean c, TypedArray.get NORM_std c with
  | Some b, Some mean, Some std =>
      Num.to_f32 (Num.div (Num.sub (Num.of_int b) mean) std)
  | _, _, _ => S754_nan
  end.

(** The body of the loops of [canvasToTensor] for pixel [(x, y)]; the state
    is the counter [i] and the array [out]. *)
Definition tensor_pixel (canvas : ImageData) (H W y x : Z)
    (st : Z * list spec_float) : Z * list spec_float :=
  let i := fst st in
  let out := snd st in
  let idx := (y * W + x) * 4 in
  let r := TypedArray.get (data canvas) (idx + 0) in
  let g := TypedArray.get (data canvas) (idx + 1) in
  let b := TypedArray.get (data canvas) (idx + 2) in
  let out := TypedArray.put out (i + 0 * H * W) (normalise 0 r) in
  let out := TypedArray.put out (i + 1 * H * W) (normalise 1 g) in
  let out := TypedArray.put out (i + 2 * H * W) (normalise 2 b) in
  (i + 1, out).

(** [canvasToTensor]: the array [tensor]; [canvas] is what [getImageData]
    returns for the image canvas, [H] and [W] are its dimensions. *)
Definition canvasToTensor (canvas : ImageData) : list spec_float :=
  let W := width canvas in
  let H := height canvas in
  let out := replicate (Z.to_nat (3 * H * W)) (S754_zero false) in
  snd (for_loop (Z.to_nat H) 0
         (fun y st => for_loop (Z.to_nat W) 0 (tensor_pixel canvas H W y) st)
         (0, out)).

(** [new ort.Tensor("float32", tensor, [1, 3, H, W])] *)
Definition image_tensor (canvas : ImageData) : Tensor :=
  mkTensor [1; 3; height canvas; width canvas] (canvasToTensor canvas).

End Run.

(** ** [draw] and [exportPNG]

    A canvas is modelled by the bytes [getImageData] returns for it; only
    the alpha bytes matter below, and those a canvas keeps as written. *)

Module Overlay.

(** The loop of [draw] that turns the mask into a green overlay. *)
Definition tint_pixel (msk : ImageData) (k : Z) (d : list Z) : list Z :=
  let i := 4 * k in
  let a := default 0 (TypedArray.get (data msk) (i + 3)) in
  let d := TypedArray.put d (i + 0) 0 in
  let d := TypedArray.put d (i + 1) 255 in
  let d := TypedArray.put d (i + 2) 0 in
  TypedArray.put d (i + 3) a.

(** The number of iterations of [for (i = 0; i < len; i += 4)]. *)
Definition quads (len : nat) : nat := Z.to_nat ((Z.of_nat len + 3) / 4).

Definition tint (msk : ImageData) : ImageData :=
  {| width := width msk; height := height msk;
     data := for_loop (quads (length (data msk))) 0 (tint_pixel msk)
               (data (new_ImageData (width msk) (height msk))) |}.

(** [putImageData(src, 0, 0)]: the pixels of [src] that fall on the canvas
    replace what was there. *)
Definition copy_pixel (src : ImageData) (W y x : Z) (d : list Z) : list Z :=
  let s := (y * width src + x) * 4 in
  let t := (y * W + x) * 4 in
  let byte c := default 0 (TypedArray.get (data src) (s + c)) in
  let d := TypedArray.put d (t + 0) (byte 0) in
  let d := TypedArray.put d (t + 1) (byte 1) in
  let d := TypedArray.put d (t + 2) (byte 2) in
  TypedArray.put d (t + 3) (byte 3).

Definition putImageData (canvas src : ImageData) : ImageData :=
  {| width := width canvas; height := height canvas;
     data :=
       for_loop (Z.to_nat (Z.min (height src) (height canvas))) 0
         (fun y d =>
            for_loop (Z.to_nat (Z.min (width src) (width canvas))) 0
              (copy_pixel src (width canvas) y) d)
         (data canvas) |}.

(** [arc(p.x, p.y, 5, 0, 2π); fill()] with the opaque fill style [#00d1ff]:
    the pixels whose centre lies in the disc take the fill colour. The
    outline and the label of a marker only paint further pixels and are
    left out. *)
Definition in_disc (p : PromptPoint) (x y : Z) : bool :=
  (2 * x + 1 - 2 * px p) ^ 2 + (2 * y + 1 - 2 * py p) ^ 2 <=? 100.

Definition fill_pixel (p : PromptPoint) (W y x : Z) (d : list Z) : list Z :=
  if in_disc p x y then
    let t := (y * W + x) * 4 in
    let d := TypedArray.put d (t + 0) 0 in
    let d := TypedArray.put d (t + 1) 209 in
    let d := TypedArray.put d (t + 2) 255 in
    TypedArray.put d (t + 3) 255
  else d.

Definition fill_marker (canvas : ImageData) (p : PromptPoint) : ImageData :=
  {| width := width canvas; height := height canvas;
     data :=
       for_loop (Z.to_nat (height canvas)) 0
         (fun y d => for_loop (Z.to_nat (width canvas)) 0 (fill_pixel p (width canvas) y) d)
         (data canvas) |}.

(** The overlay canvas after [draw] for an image of [imgW] by [imgH]. *)
Definition draw (imgW imgH : Z) (msk : option ImageData) (pts : list PromptPoint) : ImageData :=
  let cleared := new_ImageData imgW imgH in
  let tinted :=
    match msk with
    | Some m => putImageData cleared (tint m)
    | None => cleared
    end in
  foldl fill_marker tinted pts.

(** The loop of [exportPNG]. *)
Definition bin_pixel (maskData : ImageData) (k : Z) (d : list Z) : list Z :=
  let i := 4 * k in
  let on := TypedArray.gt0 (TypedArray.get (data maskData) (i + 3)) in
  let d := TypedArray.put d (i + 0) 255 in
  let d := TypedArray.put d (i + 1) 255 in
  let d := TypedArray.put d (i + 2) 255 in
  TypedArray.put d (i + 3) (if on then 255 else 0).

(** The image [exportPNG] encodes into [mask.png]; [overlay] is the content
    of the overlay canvas. *)
Definition exportPNG (overlay : ImageData) : ImageData :=
  {| width := width overlay; height := height overlay;
     data := for_loop (quads (length (data overlay))) 0 (bin_pixel overlay)
               (data (new_ImageData (width overlay) (height overlay))) |}.

End Overlay.

(** ** The border walk of [exportPolygon] *)

Module Tracer.

(** [isOn = (x, y) => id.data[(y * W + x) * 4 + 3] > 0] *)
Definition isOn (id : ImageData) (x y : Z) : bool :=
  TypedArray.gt0 (TypedArray.get (data id) ((y * width id + x) * 4 + 3)).

(** The inner [for] of the seed scan: columns [x, x + n) of row [y]; the
    column at which it breaks, if it does. *)
Fixpoint scan_row (id : ImageData) (y : Z) (n : nat) (x : Z) : option Z :=
  match n with
  | O => None
  | S n' => if isOn id x y then Some x else scan_row id y n' (x + 1)
  end.

(** The outer [for (y = 0; y < H && sy === -1; y++)], [n] rows left. *)
Fixpoint scan_rows (id : ImageData) (n : nat) (y sx sy : Z) : Z * Z :=
  match n with
  | O => (sx, sy)
  | S n' =>
      if sy =? -1 then
        match scan_row id y (Z.to_nat (width id)) 0 with
        | Some x => scan_rows id n' (y + 1) x y
        | None => scan_rows id n' (y + 1) sx sy
        end
      else (sx, sy)
  end.

(** [sx], [sy] after the scan; both are [-1] when nothing is found. *)
Definition find_seed (id : ImageData) : Z * Z :=
  scan_rows id (Z.to_nat (height id)) 0 (-1) (-1).

(** The mutable locals of the walk. *)
Record walker := mkWalker {
  wx : Z;
  wy : Z;
  wdir : Z;                      (* 0=R, 1=D, 2=L, 3=U *)
  poly : list (Z * Z);
  visited : list Z
}.

(** [move(d)] *)
Definition move (d x y : Z) : Z * Z :=
  if d =? 0 then (x + 1, y)
  else if d =? 1 then (x, y + 1)
  else if d =? 2 then (x - 1, y)
  else (x, y - 1).

(** The probe shared by [ahead()] and [rightIsOn]: the cell next to [(x, y)]
    in direction [d]. *)
Definition probe (id : ImageData) (d x y : Z) : bool :=
  if d =? 0 then isOn id (x + 1) y
  else if d =? 1 then isOn id x (y + 1)
  else if d =? 2 then isOn id (x - 1) y
  else isOn id x (y - 1).

(** [poly.push([x, y]); visited[y * W + x] = 1] *)
Definition mark (id : ImageData) (w : walker) : walker :=
  {| wx := wx w; wy := wy w; wdir := wdir w;
     poly := poly w ++ [(wx w, wy w)];
     visited := TypedArray.put (visited w) (wy w * width id + wx w) 1 |}.

(** The three-way decision of one iteration. *)
Definition step (id : ImageData) (w : walker) : walker :=
  let right := Z.land (wdir w + 3) 3 in
  let left := Z.land (wdir w + 1) 3 in
  if probe id right (wx w) (wy w) then
    let '(x', y') := move right (wx w) (wy w) in
    {| wx := x'; wy := y'; wdir := right; poly := poly w; visited := visited w |}
  else if probe id (wdir w) (wx w) (wy w) then
    let '(x', y') := move (wdir w) (wx w) (wy w) in
    {| wx := x'; wy := y'; wdir := wdir w; poly := poly w; visited := visited w |}
  else
    {| wx := wx w; wy := wy w; wdir := left; poly := poly w; visited := visited w |}.

(** The loop body up to the [break] test. *)
Definition body (id : ImageData) (w : walker) : walker := step id (mark id w).

(** [x === sx && y === sy && poly.length > 10] *)
Definition stop (sx sy : Z) (w : walker) : bool :=
  (wx w =? sx) && (wy w =? sy) && (10 <? Z.of_nat (length (poly w))).

(** [for (steps = 0; steps < W * H * 4; steps++) { body; if (stop) break; }]
    with [n] iterations of budget left: the number of iterations run and the
    locals at the exit. *)
Fixpoint walk (id : ImageData) (sx sy : Z) (n : nat) (w : walker) : nat * walker :=
  match n with
  | O => (O, w)
  | S n' =>
      let w' := body id w in
      if stop sx sy w' then (1%nat, w')
      else let '(k, r) := walk id sx sy n' w' in (S k, r)
  end.

Definition budget (id : ImageData) : nat := Z.to_nat (width id * height id * 4).

Definition start (id : ImageData) (sx sy : Z) : walker :=
  {| wx := sx; wy := sy; wdir := 0; poly := [];
     visited := replicate (Z.to_nat (width id * height id)) 0 |}.

(** Seed scan and walk together: [None] when the scan finds nothing. *)
Definition trace (id : ImageData) : option (list (Z * Z)) :=
  let '(sx, sy) := find_seed id in
  if sx =? -1 then None
  else Some (poly (snd (walk id sx sy (budget id) (start id sx sy)))).

(** What the user gets to see of an export. *)
Inductive effect :=
| Alert (msg : string)
| Download (filename : string) (coordinates : list (list (Z * Z))).

Definition is_download (e : effect) : bool :=
  match e with
  | Download _ _ => true
  | Alert _ => false
  end.

(** [exportPolygon]; [overlay] is the pixel content of the overlay canvas,
    [None] when the canvas is not mounted. *)
Definition exportPolygon (overlay : option ImageData) : list effect :=
  match overlay with
  | None => []
  | Some id =>
      match trace id with
      | None => [Alert "No mask to export"]
      | Some ring => [Download "mask.geojson" [ring]]
      end
  end.

End Tracer.

(** ** The step of the walk by directions *)

Module StepRule.
Import Tracer.

(** The four directions in the order of their codes. *)
Inductive direction := RIGHT | DOWN | LEFT | UP.

Definition of_code (c : Z) : direction :=
  if c =? 0 then RIGHT else if c =? 1 then DOWN else if c =? 2 then LEFT else UP.

(** The cell next to [(x, y)] in direction [d], rows growing downwards. *)
Definition cell (d : direction) (x y : Z) : Z * Z :=
  match d with
  | RIGHT => (x + 1, y)
  | DOWN => (x, y + 1)
  | LEFT => (x - 1, y)
  | UP => (x, y - 1)
  end.

Definition occupied (id : ImageData) (p : Z * Z) : bool := isOn id (fst p) (snd p).

Definition facing (w : walker) (d : Z) (p : Z * Z) : walker :=
  {| wx := fst p; wy := snd p; wdir := d; poly := poly w; visited := visited w |}.

(** A step that probes the side [(dir + a) mod 4] first, turning to it and
    advancing when it is occupied; that advances straight on otherwise when
    the cell ahead is occupied; and that else turns to [(dir + b) mod 4] in
    place. *)
Definition rule (a b : Z) (id : ImageData) (w : walker) : walker :=
  let side := (wdir w + a) mod 4 in
  let other := (wdir w + b) mod 4 in
  if occupied id (cell (of_code side) (wx w) (wy w))
  then facing w side (cell (of_code side) (wx w) (wy w))
  else if occupied id (cell (of_code (wdir w)) (wx w) (wy w))
  then facing w (wdir w) (cell (of_code (wdir w)) (wx w) (wy w))
  else facing w other (wx w, wy w).

(** The rule as the specification words it: the probed right-hand side is
    [dir + 1 mod 4], the turn in place is to [dir + 3 mod 4]. *)
Definition rule_as_specified := rule 1 3.

End StepRule.

(** ** Polygons as paths *)

Module Path.

(** Two cells that are the same or share an edge. *)
Definition near (p q : Z * Z) : Prop :=
  Z.abs (fst q - fst p) + Z.abs (snd q - snd p) <= 1.

(** Every point of the list is near the one before it. *)
Fixpoint chain (l : list (Z * Z)) : Prop :=
  match l with
  | p :: ((q :: _) as rest) => near p q /\ chain rest
  | _ => True
  end.

(** Pixel [(x', y')] comes before [(x, y)] in the scan: rows from the top,
    columns from the left. *)
Definition scanned_before (x' y' x y : Z) : Prop :=
  y' < y \/ (y' = y /\ x' < x).

(** Some marker of [pts] covers pixel [(x, y)]. *)
Definition marked (pts : list PromptPoint) (x y : Z) : bool :=
  existsb (fun p => Overlay.in_disc p x y) pts.

(** Each number of the list is below all the later ones. *)
Fixpoint increasing (l : list spec_float) : bool :=
  match l with
  | [] => true
  | a :: rest => forallb (SFltb a) rest && increasing rest
  end.

(** The values channel [c] of the tensor can take, by byte. *)
Definition channel_values (c : Z) : list spec_float :=
  map (fun b => Run.normalise c (Some b)) (seqZ 0 256).

End Path.

(** ** Grids used as examples *)

Module Examples.
Import Tracer.

(** 2 x 2, nothing occupied. *)
Definition blank_grid : ImageData := of_alpha 2 2 [0; 0; 0; 0].

(** 2 x 2, every pixel occupied. *)
Definition full_grid : ImageData := of_alpha 2 2 [110; 110; 110; 110].

(** 2 x 2, the left column occupied; and the walk standing on (0,0) facing
    RIGHT. *)
Definition column_grid : ImageData := of_alpha 2 2 [110; 0; 110; 0].
Definition at_origin : walker := start column_grid 0 0.

(** 3 x 3, the centre pixel alone occupied. *)
Definition dot_grid : ImageData := of_alpha 3 3 [0; 0; 0; 0; 110; 0; 0; 0; 0].

(** 3 x 3, nothing occupied. *)
Definition blank_grid3 : ImageData := of_alpha 3 3 [0; 0; 0; 0; 0; 0; 0; 0; 0].

(** 4 x 4, the centre 2 x 2 block occupied. *)
Definition block_grid : ImageData :=
  of_alpha 4 4 [0; 0; 0; 0;  0; 110; 110; 0;  0; 110; 110; 0;  0; 0; 0; 0].

(** The polygon of [block_grid]. *)
Definition block_ring : list (Z * Z) :=
  [(1, 1); (2, 1); (2, 1); (2, 2); (2, 2); (1, 2); (1, 2); (1, 1);
   (1, 1); (2, 1); (2, 1); (2, 2); (2, 2); (1, 2); (1, 2)].

(** A 2 x 2 mask tensor with scores 0.8, -0.2, 0.1 and 0.9. *)
Definition tenth (n : Z) : spec_float := Num.div (Num.of_int n) (Num.of_int 10).
Definition quadrants : Tensor :=
  mkTensor [1; 1; 2; 2] [tenth 8; tenth (-2); tenth 1; tenth 9].

(** A 12 x 12 mask with no occupied pixel, and a foreground prompt point in
    its middle. *)
Definition blank_mask : ImageData := of_alpha 12 12 (replicate 144 0).
Definition middle_point : PromptPoint := mkPoint 6 6 1.

(** The cells of the centre block of a 4 x 4 grid. *)
Definition centre_block (x y : Z) : bool :=
  ((x =? 1) || (x =? 2)) && ((y =? 1) || (y =? 2)).

End Examples.

(** * Properties *)

(** ** Typed arrays and loops *)

Module TypedArrayFacts.
Import TypedArray.

Lemma length_put {A} (a : list A) i v : length (put a i v) = length a.
Proof. unfold put. destruct (i <? 0); [done | apply length_insert]. Qed.

Lemma get_put_eq {A} (a : list A) i v :
  0 <= i < Z.of_nat (length a) -> get (put a i v) i = Some v.
Proof.
  intros Hi. unfold get, put.
  destruct (Z.ltb_spec i 0) as [Hn | _]; [lia |].
  apply list_lookup_insert_eq. lia.
Qed.

Lemma get_put_ne {A} (a : list A) i j v :
  i <> j -> get (put a i v) j = get a j.
Proof.
  intros Hne. unfold get, put.
  destruct (Z.ltb_spec j 0) as [Hj | Hj]; [done |].
  destruct (Z.ltb_spec i 0) as [Hi | Hi]; [done |].
  apply list_lookup_insert_ne. lia.
Qed.

Lemma get_Some_lt {A} (a : list A) i v :
  get a i = Some v -> 0 <= i < Z.of_nat (length a).
Proof.
  unfold get. destruct (Z.ltb_spec i 0) as [Hi | Hi]; [done |].
  intros Hl. apply lookup_lt_Some in Hl. lia.
Qed.

End TypedArrayFacts.

(** The invariant rule for a counting loop. *)
Lemma for_loop_inv {St : Type} (P : Z -> St -> Prop) (f : Z -> St -> St) n i s :
  P i s ->
  (forall j t, i <= j < i + Z.of_nat n -> P j t -> P (j + 1) (f j t)) ->
  P (i + Z.of_nat n) (for_loop n i f s).
Proof.
  revert i s. induction n as [| n IH]; intros i s Hs Hstep.
  - simpl. by replace (i + Z.of_nat 0) with i by lia.
  - simpl for_loop. replace (i + Z.of_nat (S n)) with (i + 1 + Z.of_nat n) by lia.
    apply IH.
    + apply Hstep; [lia | done].
    + intros j t Hj. apply Hstep. lia.
Qed.

Lemma for_loop_inv0 {St : Type} (P : Z -> St -> Prop) (f : Z -> St -> St) N s :
  0 <= N -> P 0 s ->
  (forall j t, 0 <= j < N -> P j t -> P (j + 1) (f j t)) ->
  P N (for_loop (Z.to_nat N) 0 f s).
Proof.
  intros HN Hs Hstep. replace N with (0 + Z.of_nat (Z.to_nat N)) at 1 by lia.
  apply for_loop_inv; [done |]. intros j t Hj. apply Hstep. lia.
Qed.

(** ** The seed scan *)

Module TracerFacts.
Import Tracer.

Lemma scan_row_Some id y n x0 x :
  scan_row id y n x0 = Some x ->
  x0 <= x < x0 + Z.of_nat n /\ isOn id x y = true.
Proof.
  revert x0. induction n as [| n IH]; intros x0; simpl; [done |].
  destruct (isOn id x0 y) eqn:Hon.
  - intros [= <-]. split; [lia | done].
  - intros Hs. apply IH in Hs. split; [lia | apply Hs].
Qed.

Lemma scan_row_None id y n x0 :
  scan_row id y n x0 = None ->
  forall x, x0 <= x < x0 + Z.of_nat n -> isOn id x y = false.
Proof.
  revert x0. induction n as [| n IH]; intros x0; simpl; [lia |].
  destruct (isOn id x0 y) eqn:Hon; [done |].
  intros Hs x Hx. destruct (Z.eq_dec x x0) as [-> | Hne]; [done |].
  apply (IH _ Hs). lia.
Qed.

Lemma scan_rows_done id n y sx sy : sy <> -1 -> scan_rows id n y sx sy = (sx, sy).
Proof.
  intros Hsy. destruct n as [| n]; simpl; [done |].
  destruct (Z.eqb_spec sy (-1)); [done | done].
Qed.

(** The scan either finds nothing, every cell of the rows it covers being
    off, or stops on an occupied cell of the grid. *)
Lemma scan_rows_spec id n y0 sx sy :
  0 <= y0 ->
  scan_rows id n y0 (-1) (-1) = (sx, sy) ->
  (sx = -1 /\ sy = -1 /\
   forall x y, 0 <= x < width id -> y0 <= y < y0 + Z.of_nat n -> isOn id x y = false)
  \/ (0 <= sx < width id /\ y0 <= sy < y0 + Z.of_nat n /\ isOn id sx sy = true).
Proof.
  revert y0. induction n as [| n IH]; intros y0 Hy0; simpl.
  - intros [= <- <-]. left. repeat split; lia.
  - destruct (scan_row id y0 (Z.to_nat (width id)) 0) as [x |] eqn:Hrow.
    + rewrite scan_rows_done by lia. intros [= <- <-].
      apply scan_row_Some in Hrow. right. repeat split; try lia. apply Hrow.
    + intros Hs. apply IH in Hs; [| lia].
      destruct Hs as [(-> & -> & Hoff) | (Hx & Hy & Hon)].
      * left. repeat split; try done. intros x y Hx Hy.
        destruct (Z.eq_dec y y0) as [-> | Hne].
        -- apply (scan_row_None _ _ _ _ Hrow). lia.
        -- apply Hoff; lia.
      * right. repeat split; try lia. done.
Qed.

Lemma find_seed_spec id sx sy :
  find_seed id = (sx, sy) ->
  (sx = -1 /\ sy = -1 /\
   forall x y, 0 <= x < width id -> 0 <= y < height id -> isOn id x y = false)
  \/ (0 <= sx < width id /\ 0 <= sy < height id /\ isOn id sx sy = true).
Proof.
  unfold find_seed. intros Hs. apply scan_rows_spec in Hs; [| lia].
  destruct Hs as [(-> & -> & Hoff) | (Hx & Hy & Hon)].
  - left. repeat split; try done. intros x y Hx Hy. apply Hoff; lia.
  - right. repeat split; try lia. done.
Qed.

(** ** The walk *)

Lemma poly_step id w : poly (step id w) = poly w.
Proof. unfold step. repeat case_match; done. Qed.

Lemma poly_body id w : poly (body id w) = poly w ++ [(wx w, wy w)].
Proof. unfold body. by rewrite poly_step. Qed.

Lemma iter_body_length id k w :
  length (poly (Nat.iter k (body id) w)) = (length (poly w) + k)%nat.
Proof.
  induction k as [| k IH]; simpl; [lia |].
  rewrite poly_body, length_app, IH. simpl. lia.
Qed.

Lemma iter_shift {A} (f : A -> A) k a : Nat.iter k f (f a) = f (Nat.iter k f a).
Proof. induction k as [| k IH]; simpl; [done | by rewrite IH]. Qed.

(** What the loop returns: it ran [k <= n] iterations, never passed a state
    satisfying the [break] test, and left early only on such a state. *)
Lemma walk_spec id sx sy n w k r :
  walk id sx sy n w = (k, r) ->
  (k <= n)%nat /\ r = Nat.iter k (body id) w /\
  (forall j, (0 < j < k)%nat -> stop sx sy (Nat.iter j (body id) w) = false) /\
  ((k < n)%nat -> stop sx sy r = true).
Proof.
  revert w k r. induction n as [| n IH]; intros w k r; simpl.
  - intros [= <- <-]. repeat split; lia.
  - destruct (stop sx sy (body id w)) eqn:Hstop.
    + intros [= <- <-]. repeat split; try lia; done.
    + destruct (walk id sx sy n (body id w)) as [k' r'] eqn:Hw.
      intros [= <- <-]. apply IH in Hw as (Hle & Hr & Hbefore & Hearly).
      split; [lia |]. split; [| split].
      * simpl. by rewrite <- iter_shift.
      * intros j Hj. destruct j as [| j]; [lia |].
        simpl. rewrite <- iter_shift.
        destruct j as [| j]; [done |]. apply Hbefore. lia.
      * intros Hk. apply Hearly. lia.
Qed.

Lemma poly_iter_prefix id k w :
  exists rest, poly (Nat.iter k (body id) w) = poly w ++ rest.
Proof.
  induction k as [| k [rest IH]]; simpl.
  - exists []. by rewrite app_nil_r.
  - rewrite poly_body, IH. eexists. by rewrite <- app_assoc.
Qed.

(** The first point pushed is the position the walk starts from. *)
Lemma poly_iter_head id k w :
  (0 < k)%nat ->
  exists rest, poly (Nat.iter k (body id) w) = poly w ++ (wx w, wy w) :: rest.
Proof.
  intros Hk. destruct k as [| k]; [lia |].
  simpl. rewrite <- iter_shift.
  destruct (poly_iter_prefix id k (body id w)) as [rest ->].
  rewrite poly_body. exists rest. by rewrite <- app_assoc.
Qed.

Lemma stop_true sx sy w :
  stop sx sy w = true <->
  wx w = sx /\ wy w = sy /\ (11 <= length (poly w))%nat.
Proof.
  unfold stop. rewrite !andb_true_iff, !Z.eqb_eq, Z.ltb_lt. lia.
Qed.

Lemma budget_pos id : wf_image id -> (4 <= budget id)%nat.
Proof. intros (HW & HH & _). unfold budget. nia. Qed.

Lemma walk_runs id sx sy n w :
  (0 < n)%nat -> (0 < fst (walk id sx sy n w))%nat.
Proof.
  intros Hn. destruct n as [| n]; [lia |]. simpl.
  destruct (stop sx sy (body id w)); simpl; [lia |].
  destruct (walk id sx sy n (body id w)). simpl. lia.
Qed.

(** ** Occupancy is read through the linear index

    [isOn] looks at [y * W + x] only: a column outside [0, W) reads a cell
    of a neighbouring row. *)

Lemma isOn_linear id x y x' y' :
  y * width id + x = y' * width id + x' -> isOn id x y = isOn id x' y'.
Proof. intros Heq. unfold isOn. by rewrite Heq. Qed.

Lemma isOn_true_index id x y :
  wf_image id -> isOn id x y = true ->
  0 <= y * width id + x < width id * height id.
Proof.
  intros (HW & HH & Hlen). unfold isOn, TypedArray.gt0.
  destruct (TypedArray.get _ _) as [v |] eqn:Hget; [| done].
  intros _. apply TypedArrayFacts.get_Some_lt in Hget. lia.
Qed.

Lemma isOn_alias id x y :
  0 < width id ->
  isOn id x y = isOn id ((y * width id + x) mod width id) ((y * width id + x) / width id).
Proof.
  intros HW. apply isOn_linear.
  pose proof (Z.div_mod (y * width id + x) (width id)). lia.
Qed.

(** Two grids of the same size with the same occupied cells are read alike
    at every coordinate. *)
Lemma isOn_ext id id' :
  wf_image id -> wf_image id' ->
  width id = width id' -> height id = height id' ->
  (forall x y, 0 <= x < width id -> 0 <= y < height id -> isOn id x y = isOn id' x y) ->
  forall x y, isOn id x y = isOn id' x y.
Proof.
  intros Hwf Hwf' HW HH Hin x y.
  assert (0 < width id) as HWpos by apply Hwf.
  set (L := y * width id + x).
  destruct (decide (0 <= L < width id * height id)) as [HL | HL].
  - rewrite (isOn_alias id), (isOn_alias id') by lia. rewrite <- HW. fold L.
    apply Hin.
    + apply Z.mod_pos_bound. lia.
    + split; [apply Z.div_pos; lia | apply Z.div_lt_upper_bound; lia].
  - destruct (isOn id x y) eqn:H1.
    { apply isOn_true_index in H1; [| done]. unfold L in HL. lia. }
    destruct (isOn id' x y) eqn:H2; [| done].
    apply isOn_true_index in H2; [| done]. unfold L in HL. rewrite <- HW, <- HH in H2. lia.
Qed.

Section Ext.
Variables id id' : ImageData.
Hypothesis HW : width id = width id'.
Hypothesis HH : height id = height id'.
Hypothesis Hon : forall x y, isOn id x y = isOn id' x y.

Lemma scan_row_ext y n x : scan_row id y n x = scan_row id' y n x.
Proof.
  revert x. induction n as [| n IH]; intros x; simpl; [done |].
  by rewrite Hon, IH.
Qed.

Lemma scan_rows_ext n y sx sy : scan_rows id n y sx sy = scan_rows id' n y sx sy.
Proof.
  revert y sx sy. induction n as [| n IH]; intros y sx sy; simpl; [done |].
  rewrite scan_row_ext, <- HW. destruct (sy =? -1); [| done].
  destruct (scan_row id' y _ 0); apply IH.
Qed.

Lemma body_ext w : body id w = body id' w.
Proof. unfold body, mark, step, probe. simpl. by rewrite !Hon, HW. Qed.

Lemma walk_ext sx sy n w : walk id sx sy n w = walk id' sx sy n w.
Proof.
  revert w. induction n as [| n IH]; intros w; simpl; [done |].
  by rewrite body_ext, IH.
Qed.

Lemma trace_ext : trace id = trace id'.
Proof.
  unfold trace, find_seed, budget, start.
  rewrite scan_rows_ext, <- HH, <- HW.
  destruct (scan_rows id' _ 0 (-1) (-1)) as [sx sy].
  destruct (sx =? -1); [done |]. by rewrite walk_ext.
Qed.

End Ext.

(** The direction stays one of the four codes. *)
Lemma land3_mod4 n : 0 <= n -> Z.land n 3 = n mod 4.
Proof. intros Hn. change 3 with (Z.ones 2). by rewrite Z.land_ones by lia. Qed.

End TracerFacts.

(** ** The step rule *)

Module StepRuleFacts.
Import Tracer StepRule TracerFacts Examples.

Lemma move_cell d x y : move d x y = cell (of_code d) x y.
Proof.
  unfold move, of_code.
  destruct (d =? 0); [done |]. destruct (d =? 1); [done |]. by destruct (d =? 2).
Qed.

Lemma probe_cell id d x y : probe id d x y = occupied id (cell (of_code d) x y).
Proof.
  unfold probe, of_code, occupied.
  destruct (d =? 0); [done |]. destruct (d =? 1); [done |]. by destruct (d =? 2).
Qed.

(** C1, as worded, fails: with DOWN ([dir + 1]) occupied and UP and RIGHT
    free, the specified rule turns to DOWN and advances to (0,1), while the
    code turns to DOWN in place. *)
Lemma C1_right_is_not_plus_one :
  wx (step column_grid at_origin) = 0 /\ wy (step column_grid at_origin) = 0 /\
  wdir (step column_grid at_origin) = 1 /\
  wy (rule_as_specified column_grid at_origin) = 1 /\
  step column_grid at_origin <> rule_as_specified column_grid at_origin.
Proof. repeat split; try reflexivity. intros Heq. discriminate (f_equal wy Heq). Qed.

(** C1 (amended): on directions coded cyclically RIGHT, DOWN, LEFT, UP the
    side probed first is [dir + 3 mod 4] and the turn in place is to
    [dir + 1 mod 4]: if the cell on the probed side is occupied the walk turns
    to that side and advances one cell in the new direction; else if the cell
    ahead is occupied it advances without turning; else it turns to
    [dir + 1 mod 4] without advancing. The direction stays a code in 0..3. *)
Theorem C1_step_rule (id : ImageData) (w : walker) :
  0 <= wdir w < 4 ->
  Z.land (wdir w + 3) 3 = (wdir w + 3) mod 4 /\
  Z.land (wdir w + 1) 3 = (wdir w + 1) mod 4 /\
  step id w = rule 3 1 id w /\
  0 <= wdir (step id w) < 4.
Proof.
  intros Hd.
  assert (step id w = rule 3 1 id w) as Hrule.
  { unfold step, rule. rewrite !land3_mod4 by lia. rewrite !probe_cell, !move_cell.
    destruct (occupied id (cell (of_code ((wdir w + 3) mod 4)) (wx w) (wy w))).
    - by destruct (cell _ _ _).
    - destruct (occupied id (cell (of_code (wdir w)) (wx w) (wy w))); [| done].
      by destruct (cell _ _ _). }
  split; [apply land3_mod4; lia |]. split; [apply land3_mod4; lia |].
  split; [done |].
  rewrite Hrule. unfold rule, facing.
  repeat case_match; simpl; try lia; apply Z.mod_pos_bound; lia.
Qed.

Lemma C1_step_rule_witness :
  0 <= wdir at_origin < 4 /\ step column_grid at_origin = rule 3 1 column_grid at_origin.
Proof.
  assert (0 <= wdir at_origin < 4) as Hd by (simpl; lia).
  split; [exact Hd |]. exact (proj1 (proj2 (proj2 (C1_step_rule column_grid at_origin Hd)))).
Defined.

End StepRuleFacts.

(** ** Claims on the border walk *)

Module TracerClaims.
Import Tracer TracerFacts Examples.

Lemma range4 x : 0 <= x < 4 -> x = 0 \/ x = 1 \/ x = 2 \/ x = 3.
Proof. lia. Qed.

Lemma range3 x : 0 <= x < 3 -> x = 0 \/ x = 1 \/ x = 2.
Proof. lia. Qed.

Lemma range2 x : 0 <= x < 2 -> x = 0 \/ x = 1.
Proof. lia. Qed.

(** C6: on a grid with no occupied pixel the scan finds no seed, so [trace]
    returns no polygon, and [exportPolygon] shows the alert [No mask to
    export] and downloads nothing. *)
Theorem C6_empty_grid_nothing_to_export (id : ImageData) :
  wf_image id ->
  (forall x y, 0 <= x < width id -> 0 <= y < height id -> isOn id x y = false) ->
  trace id = None /\
  exportPolygon (Some id) = [Alert "No mask to export"] /\
  (forall e, e ∈ exportPolygon (Some id) -> is_download e = false).
Proof.
  intros _ Hoff.
  assert (trace id = None) as Htrace.
  { unfold trace. destruct (find_seed id) as [sx sy] eqn:Hseed.
    apply find_seed_spec in Hseed as [(-> & _) | (Hx & Hy & Hon)]; [done |].
    rewrite Hoff in Hon by done. done. }
  split; [done |]. unfold exportPolygon. rewrite Htrace. split; [done |].
  intros e He. apply list_elem_of_singleton in He. by subst e.
Qed.

Lemma C6_empty_grid_witness :
  wf_image blank_grid /\
  (forall x y, 0 <= x < width blank_grid -> 0 <= y < height blank_grid ->
               isOn blank_grid x y = false) /\
  exportPolygon (Some blank_grid) = [Alert "No mask to export"].
Proof.
  assert (forall x y, 0 <= x < width blank_grid -> 0 <= y < height blank_grid ->
                      isOn blank_grid x y = false) as Hoff.
  { intros x y Hx Hy. simpl in Hx, Hy.
    destruct (range2 x Hx) as [-> | ->];
      destruct (range2 y Hy) as [-> | ->]; reflexivity. }
  assert (wf_image blank_grid) as Hwf by (repeat split; reflexivity).
  split; [exact Hwf |]. split; [exact Hoff |].
  exact (proj1 (proj2 (C6_empty_grid_nothing_to_export blank_grid Hwf Hoff))).
Defined.

(** A grid with an occupied pixel has a seed, which is occupied and in the
    grid. *)
Lemma find_seed_found id :
  (exists x y, 0 <= x < width id /\ 0 <= y < height id /\ isOn id x y = true) ->
  exists sx sy, find_seed id = (sx, sy) /\
    0 <= sx < width id /\ 0 <= sy < height id /\ isOn id sx sy = true.
Proof.
  intros (x & y & Hx & Hy & Hon).
  destruct (find_seed id) as [sx sy] eqn:Hseed. exists sx, sy. split; [done |].
  apply find_seed_spec in Hseed as [(_ & _ & Hoff) | Hfound]; [| done].
  rewrite Hoff in Hon by done. done.
Qed.

Lemma trace_found id sx sy :
  find_seed id = (sx, sy) -> 0 <= sx ->
  trace id = Some (poly (snd (walk id sx sy (budget id) (start id sx sy)))).
Proof.
  intros Hseed Hsx. unfold trace. rewrite Hseed.
  destruct (Z.eqb_spec sx (-1)); [lia | done].
Qed.

(** C2: on a grid with an occupied pixel the walk runs [k] iterations with
    [k <= 4 * width * height], one point pushed per iteration; no state it
    passed before the last iteration was back on the seed with 11 points or
    more, and when it stops with budget left the position is the seed and at
    least 11 points have been pushed. When one pixel alone is occupied, that
    pixel is the seed and is in the polygon, the walk ending within the
    budget. *)
Theorem C2_walk_budget_and_stop (id : ImageData) :
  wf_image id ->
  (exists x y, 0 <= x < width id /\ 0 <= y < height id /\ isOn id x y = true) ->
  exists sx sy k r,
    find_seed id = (sx, sy) /\
    walk id sx sy (budget id) (start id sx sy) = (k, r) /\
    trace id = Some (poly r) /\
    length (poly r) = k /\
    (0 < k)%nat /\ Z.of_nat k <= 4 * width id * height id /\
    r = Nat.iter k (body id) (start id sx sy) /\
    (forall j, (0 < j < k)%nat ->
       let w := Nat.iter j (body id) (start id sx sy) in
       ~ (wx w = sx /\ wy w = sy /\ (11 <= length (poly w))%nat)) /\
    (Z.of_nat k < 4 * width id * height id ->
       wx r = sx /\ wy r = sy /\ (11 <= length (poly r))%nat) /\
    (forall px py,
       0 <= px < width id -> 0 <= py < height id ->
       (forall x y, 0 <= x < width id -> 0 <= y < height id ->
                    isOn id x y = true -> x = px /\ y = py) ->
       sx = px /\ sy = py /\ (px, py) ∈ poly r).
Proof.
  intros Hwf Hsome.
  destruct (find_seed_found id Hsome) as (sx & sy & Hseed & Hsx & Hsy & Hon).
  destruct (walk id sx sy (budget id) (start id sx sy)) as [k r] eqn:Hwalk.
  exists sx, sy, k, r.
  pose proof (walk_spec _ _ _ _ _ _ _ Hwalk) as (Hle & Hr & Hbefore & Hearly).
  pose proof (budget_pos id Hwf) as Hbud.
  assert (0 < k)%nat as Hk.
  { pose proof (walk_runs id sx sy (budget id) (start id sx sy)) as Hrun.
    rewrite Hwalk in Hrun. simpl in Hrun. apply Hrun. lia. }
  assert (Z.of_nat (budget id) = 4 * width id * height id) as Hbz.
  { destruct Hwf as (HW & HH & _). unfold budget. nia. }
  split; [done |]. split; [done |].
  split. { rewrite (trace_found id sx sy) by (done || lia). by rewrite Hwalk. }
  split. { rewrite Hr, iter_body_length. simpl. lia. }
  split; [done |]. split; [lia |]. split; [done |].
  split. { intros j Hj w Hclosed. apply stop_true in Hclosed.
           unfold w in Hclosed. rewrite Hbefore in Hclosed by done. done. }
  split. { intros Hlt. apply stop_true, Hearly. lia. }
  intros px py Hpx Hpy Honly.
  destruct (Honly sx sy Hsx Hsy Hon) as [-> ->].
  split; [done |]. split; [done |].
  destruct (poly_iter_head id k (start id px py) Hk) as [rest Hpoly].
  rewrite Hr, Hpoly. simpl. apply list_elem_of_here.
Qed.

Lemma C2_walk_budget_witness :
  wf_image dot_grid /\
  exists sx sy k r,
    find_seed dot_grid = (sx, sy) /\
    walk dot_grid sx sy (budget dot_grid) (start dot_grid sx sy) = (k, r) /\
    Z.of_nat k <= 4 * width dot_grid * height dot_grid /\
    (1, 1) ∈ poly r.
Proof.
  assert (wf_image dot_grid) as Hwf by (repeat split; reflexivity).
  assert (exists x y, 0 <= x < width dot_grid /\ 0 <= y < height dot_grid /\
                      isOn dot_grid x y = true) as Hsome.
  { exists 1, 1. repeat split; simpl; lia || reflexivity. }
  split; [exact Hwf |].
  destruct (C2_walk_budget_and_stop dot_grid Hwf Hsome)
    as (sx & sy & k & r & Hseed & Hwalk & _ & _ & _ & Hk & _ & _ & _ & Hone).
  exists sx, sy, k, r. split; [exact Hseed |]. split; [exact Hwalk |].
  split; [exact Hk |].
  apply (Hone 1 1); simpl; try lia.
  intros x y Hx Hy.
  destruct (range3 x Hx) as [-> | [-> | ->]];
    destruct (range3 y Hy) as [-> | [-> | ->]];
    vm_compute; intros; (done || (split; reflexivity)).
Defined.

(** C4, at a failing input: on the fully occupied 2 x 2 grid [isOn] reads
    the cell (2,0), outside the grid, as occupied (it is cell (0,1) of the
    buffer), the walk moves onto it, and the polygon contains (2,0) and
    (2,-1), neither of which is a pixel of the grid. *)
Theorem C4_full_grid_leaves_bounds :
  wf_image full_grid /\
  isOn full_grid 2 0 = true /\ isOn full_grid 2 (-1) = true /\
  trace full_grid =
    Some [(0, 0); (1, 0); (2, 0); (2, -1); (2, -1); (3, -1); (4, -1); (4, -2);
          (4, -2); (5, -2); (6, -2); (6, -3); (6, -3); (7, -3); (8, -3); (8, -4)] /\
  exists ring x y,
    trace full_grid = Some ring /\ (x, y) ∈ ring /\
    ~ (0 <= x < width full_grid /\ 0 <= y < height full_grid).
Proof.
  split; [repeat split; reflexivity |].
  split; [reflexivity |]. split; [reflexivity |]. split; [reflexivity |].
  exists [(0, 0); (1, 0); (2, 0); (2, -1); (2, -1); (3, -1); (4, -1); (4, -2);
          (4, -2); (5, -2); (6, -2); (6, -3); (6, -3); (7, -3); (8, -3); (8, -4)], 2, 0.
  split; [reflexivity |].
  split; [| simpl; lia].
  do 2 apply list_elem_of_further. apply list_elem_of_here.
Qed.

(** Whenever [trace] returns a polygon it has a point, the first one being
    the seed. *)
Lemma trace_nonempty id ring :
  wf_image id -> trace id = Some ring ->
  exists sx sy rest, find_seed id = (sx, sy) /\ ring = (sx, sy) :: rest.
Proof.
  intros Hwf. unfold trace. destruct (find_seed id) as [sx sy] eqn:Hseed.
  destruct (sx =? -1); [done |]. intros [= <-].
  destruct (walk id sx sy (budget id) (start id sx sy)) as [k r] eqn:Hwalk.
  pose proof (walk_spec _ _ _ _ _ _ _ Hwalk) as (_ & Hr & _).
  pose proof (walk_runs id sx sy (budget id) (start id sx sy)) as Hrun.
  rewrite Hwalk in Hrun. simpl in Hrun.
  pose proof (budget_pos id Hwf).
  destruct (poly_iter_head id k (start id sx sy)) as [rest Hpoly]; [lia |].
  exists sx, sy, rest. split; [done |]. simpl. by rewrite Hr, Hpoly.
Qed.

Lemma probe_move id d x y :
  probe id d x y = isOn id (fst (move d x y)) (snd (move d x y)).
Proof.
  unfold probe, move.
  destruct (d =? 0); [done |]. destruct (d =? 1); [done |]. by destruct (d =? 2).
Qed.

Lemma step_occupied id w :
  isOn id (wx w) (wy w) = true -> isOn id (wx (step id w)) (wy (step id w)) = true.
Proof.
  intros Hon. unfold step.
  destruct (probe id (Z.land (wdir w + 3) 3) (wx w) (wy w)) eqn:Hside.
  - rewrite probe_move in Hside. by destruct (move _ _ _).
  - destruct (probe id (wdir w) (wx w) (wy w)) eqn:Hahead; [| done].
    rewrite probe_move in Hahead. by destruct (move _ _ _).
Qed.

(** X2: what does hold of the points of a polygon: the walk only ever stands on
    cells that [isOn] reads as occupied, so every point has its linear index
    [y * W + x] inside the buffer; its column and row need not be in the
    grid. *)
Lemma trace_points_occupied id ring :
  wf_image id -> trace id = Some ring ->
  forall x y, (x, y) ∈ ring ->
    isOn id x y = true /\ 0 <= y * width id + x < width id * height id.
Proof.
  intros Hwf Htrace.
  assert (forall x y, (x, y) ∈ ring -> isOn id x y = true) as Hon.
  { unfold trace in Htrace. destruct (find_seed id) as [sx sy] eqn:Hseed.
    destruct (Z.eqb_spec sx (-1)) as [| Hsx]; [done |]. injection Htrace as <-.
    apply find_seed_spec in Hseed as [(-> & _) | (_ & _ & Hs)]; [done |].
    destruct (walk id sx sy (budget id) (start id sx sy)) as [k r] eqn:Hwalk.
    apply walk_spec in Hwalk as (_ & -> & _). cbn [snd].
    assert (forall j, let w := Nat.iter j (body id) (start id sx sy) in
              isOn id (wx w) (wy w) = true /\
              forall x y, (x, y) ∈ poly w -> isOn id x y = true) as Hinv.
    { induction j as [| j [IHpos IHpoly]].
      - split; [done |]. intros x y Hin. by apply elem_of_nil in Hin.
      - cbv zeta in *.
        change (Nat.iter (S j) (body id) (start id sx sy))
          with (body id (Nat.iter j (body id) (start id sx sy))).
        set (w := Nat.iter j (body id) (start id sx sy)) in *. split.
        + unfold body. by apply step_occupied.
        + intros x y. rewrite poly_body, elem_of_app, list_elem_of_singleton.
          intros [Hin | [= -> ->]]; [by apply IHpoly | done]. }
    intros x y. apply (Hinv k). }
  intros x y Hin. split; [by apply Hon |]. apply isOn_true_index; [done | by apply Hon].
Qed.

(** C8, as worded, fails: the polygon of the 4 x 4 grid with the centre
    block occupied has 15 points, not 8 or fewer, and its last point is not
    its first. *)
Lemma C8_not_at_most_8_points :
  ~ (exists ring, trace block_grid = Some ring /\ (length ring <= 8)%nat) /\
  ~ (exists ring, trace block_grid = Some ring /\ head ring = last ring).
Proof.
  split; intros (ring & Htrace & Hbad); vm_compute in Htrace;
    injection Htrace as <-; vm_compute in Hbad; [lia | discriminate].
Qed.

(** C8 (amended): on every 4 x 4 grid whose centre 2 x 2 block is the only
    occupied region the polygon has 15 points: the circuit (1,1), (2,1),
    (2,2), (1,2) walked clockwise nearly twice, a cell being pushed again
    after each turn in place. Its points are exactly the 4 occupied pixels;
    it starts on the seed (1,1) and ends on (1,2), the cell below it. *)
Theorem C8_centre_block_polygon (id : ImageData) :
  wf_image id -> width id = 4 -> height id = 4 ->
  (forall x y, 0 <= x < 4 -> 0 <= y < 4 -> isOn id x y = centre_block x y) ->
  trace id =
    Some [(1, 1); (2, 1); (2, 1); (2, 2); (2, 2); (1, 2); (1, 2); (1, 1);
          (1, 1); (2, 1); (2, 1); (2, 2); (2, 2); (1, 2); (1, 2)] /\
  forall ring, trace id = Some ring ->
    length ring = 15%nat /\
    (forall x y, (x, y) ∈ ring <-> 0 <= x < 4 /\ 0 <= y < 4 /\ isOn id x y = true).
Proof.
  intros Hwf HW HH Hblock.
  assert (wf_image block_grid) as Hwf' by (repeat split; reflexivity).
  assert (trace id = trace block_grid) as Heq.
  { apply trace_ext; [done | done |].
    apply isOn_ext; try done.
    intros x y Hx Hy. rewrite HW in Hx. rewrite HH in Hy.
    rewrite Hblock by done.
    destruct (range4 x Hx) as [-> | [-> | [-> | ->]]];
      destruct (range4 y Hy) as [-> | [-> | [-> | ->]]];
      reflexivity. }
  rewrite Heq. split; [reflexivity |].
  intros ring Hring. vm_compute in Hring. injection Hring as <-.
  split; [reflexivity |].
  intros x y. split.
  - intros Hin.
    repeat (apply elem_of_cons in Hin as [[= -> ->] | Hin];
            [rewrite Hblock by lia; repeat split; lia || reflexivity |]).
    by apply elem_of_nil in Hin.
  - intros (Hx & Hy & Hon). rewrite Hblock in Hon by done.
    destruct (range4 x Hx) as [-> | [-> | [-> | ->]]];
      destruct (range4 y Hy) as [-> | [-> | [-> | ->]]];
      try discriminate Hon; apply list_elem_of_In; simpl; tauto.
Qed.

Lemma C8_centre_block_witness :
  wf_image block_grid /\
  exists ring, trace block_grid = Some ring /\ length ring = 15%nat.
Proof.
  assert (wf_image block_grid) as Hwf by (repeat split; reflexivity).
  assert (forall x y, 0 <= x < 4 -> 0 <= y < 4 ->
                      isOn block_grid x y = centre_block x y) as Hblock.
  { intros x y Hx Hy.
    destruct (range4 x Hx) as [-> | [-> | [-> | ->]]];
      destruct (range4 y Hy) as [-> | [-> | [-> | ->]]];
      reflexivity. }
  split; [exact Hwf |].
  destruct (C8_centre_block_polygon block_grid Hwf eq_refl eq_refl Hblock) as [Htrace Hall].
  eexists. split; [exact Htrace |]. reflexivity.
Defined.

End TracerClaims.

(** ** Writing a pixel *)

Module PixelFacts.
Import TypedArray TypedArrayFacts.

(** The four writes of a pixel at byte offset [i]. *)
Lemma put4_spec (d : list Z) i a b c e :
  0 <= i -> i + 3 < Z.of_nat (length d) ->
  let d' := put (put (put (put d (i + 0) a) (i + 1) b) (i + 2) c) (i + 3) e in
  length d' = length d /\
  get d' i = Some a /\ get d' (i + 1) = Some b /\
  get d' (i + 2) = Some c /\ get d' (i + 3) = Some e /\
  forall j, j < i \/ i + 3 < j -> get d' j = get d j.
Proof.
  intros Hi Hlen d'. subst d'.
  split; [by rewrite !length_put |].
  replace (i + 0) with i by lia.
  split. { rewrite !get_put_ne by lia. apply get_put_eq. lia. }
  split. { rewrite !get_put_ne by lia. apply get_put_eq. rewrite !length_put. lia. }
  split. { rewrite !get_put_ne by lia. apply get_put_eq. rewrite !length_put. lia. }
  split. { apply get_put_eq. rewrite !length_put. lia. }
  intros j Hj. rewrite !get_put_ne by lia. done.
Qed.

Lemma length_new_ImageData w h :
  0 <= w -> 0 <= h -> Z.of_nat (length (data (new_ImageData w h))) = 4 * w * h.
Proof. intros Hw Hh. simpl. rewrite length_replicate. nia. Qed.

(** Pixels of a [W]-wide image are told apart by their linear index. *)
Lemma pixel_index_inj W x y x' y' :
  0 <= x < W -> 0 <= x' < W -> y' * W + x' = y * W + x -> y' = y /\ x' = x.
Proof.
  intros Hx Hx' Heq.
  assert (y' = y) as ->; [| lia].
  destruct (Z.lt_trichotomy y' y) as [Hlt | [-> | Hgt]]; [| done |].
  - assert ((y' + 1) * W <= y * W) by (apply Z.mul_le_mono_nonneg_r; lia). lia.
  - assert ((y + 1) * W <= y' * W) by (apply Z.mul_le_mono_nonneg_r; lia). lia.
Qed.

Lemma pixel_index_bound W H x y :
  0 <= x < W -> 0 <= y < H -> 0 <= y * W + x < W * H.
Proof. intros Hx Hy. nia. Qed.

(** A loop over the pixels in buffer order, writing four bytes each. *)
Lemma linear_loop_spec (a b c e : Z -> Z) (n : Z) (d0 : list Z) :
  0 <= n -> Z.of_nat (length d0) = 4 * n ->
  let d := for_loop (Z.to_nat n) 0
             (fun k d => put (put (put (put d (4 * k + 0) (a k)) (4 * k + 1) (b k))
                                  (4 * k + 2) (c k)) (4 * k + 3) (e k)) d0 in
  Z.of_nat (length d) = 4 * n /\
  forall k, 0 <= k < n ->
    get d (4 * k) = Some (a k) /\ get d (4 * k + 1) = Some (b k) /\
    get d (4 * k + 2) = Some (c k) /\ get d (4 * k + 3) = Some (e k).
Proof.
  intros Hn Hlen.
  apply (for_loop_inv0 (fun j d =>
    Z.of_nat (length d) = 4 * n /\
    forall k, 0 <= k < j ->
      get d (4 * k) = Some (a k) /\ get d (4 * k + 1) = Some (b k) /\
      get d (4 * k + 2) = Some (c k) /\ get d (4 * k + 3) = Some (e k))); [done | |].
  - split; [done | lia].
  - intros j t Hj [Hlt Hdone].
    destruct (put4_spec t (4 * j) (a j) (b j) (c j) (e j))
      as (Hlen' & H0 & H1 & H2 & H3 & Hframe); [lia | lia |].
    split; [lia |].
    intros k Hk. destruct (Z.eq_dec k j) as [-> | Hne]; [done |].
    rewrite !Hframe by lia. apply Hdone. lia.
Qed.

(** Two nested loops over the pixels of a [W x H] image, rows outside. *)
Lemma grid_loop_spec (a b c e : Z -> Z -> Z) (W H : Z) (d0 : list Z) :
  0 <= W -> 0 <= H -> Z.of_nat (length d0) = 4 * W * H ->
  let d := for_loop (Z.to_nat H) 0
             (fun y d => for_loop (Z.to_nat W) 0
                (fun x d =>
                   put (put (put (put d ((y * W + x) * 4 + 0) (a x y))
                                 ((y * W + x) * 4 + 1) (b x y))
                            ((y * W + x) * 4 + 2) (c x y))
                       ((y * W + x) * 4 + 3) (e x y)) d) d0 in
  Z.of_nat (length d) = 4 * W * H /\
  forall x y, 0 <= x < W -> 0 <= y < H ->
    get d ((y * W + x) * 4) = Some (a x y) /\
    get d ((y * W + x) * 4 + 1) = Some (b x y) /\
    get d ((y * W + x) * 4 + 2) = Some (c x y) /\
    get d ((y * W + x) * 4 + 3) = Some (e x y).
Proof.
  intros HW HH Hlen.
  pose (R := fun (k : Z) (d : list Z) =>
    Z.of_nat (length d) = 4 * W * H /\
    forall x y, 0 <= x < W -> 0 <= y < H -> y * W + x < k ->
      get d ((y * W + x) * 4) = Some (a x y) /\
      get d ((y * W + x) * 4 + 1) = Some (b x y) /\
      get d ((y * W + x) * 4 + 2) = Some (c x y) /\
      get d ((y * W + x) * 4 + 3) = Some (e x y)).
  cbv zeta.
  assert (R (H * W) (for_loop (Z.to_nat H) 0
             (fun y d => for_loop (Z.to_nat W) 0
                (fun x d =>
                   put (put (put (put d ((y * W + x) * 4 + 0) (a x y))
                                 ((y * W + x) * 4 + 1) (b x y))
                            ((y * W + x) * 4 + 2) (c x y))
                       ((y * W + x) * 4 + 3) (e x y)) d) d0)) as [Hl Hpix].
  { apply (for_loop_inv0 (fun y d => R (y * W) d)); [done | |].
    - split; [done |]. intros x y Hx Hy Hlt. nia.
    - intros y d Hy HQ. cbv beta.
      replace ((y + 1) * W) with (y * W + W) by lia.
      apply (for_loop_inv0 (fun x d => R (y * W + x) d)); [done | |].
      + by replace (y * W + 0) with (y * W) by lia.
      + intros x t Hx [Hlt Hdone]. unfold R.
        assert (0 <= (y * W + x) * 4 /\ (y * W + x) * 4 + 3 < Z.of_nat (length t))
          as [Hlo Hhi] by nia.
        destruct (put4_spec t ((y * W + x) * 4) (a x y) (b x y) (c x y) (e x y) Hlo Hhi)
          as (Hlen' & H0 & H1 & H2 & H3 & Hframe).
        split; [lia |].
        intros x' y' Hx' Hy' Hk.
        destruct (Z.eq_dec (y' * W + x') (y * W + x)) as [Heq | Hne].
        * destruct (pixel_index_inj W x y x' y') as [-> ->]; done.
        * rewrite !Hframe by lia. apply Hdone; try done. lia. }
  split; [done |]. intros x y Hx Hy. apply Hpix; try done.
  pose proof (pixel_index_bound W H x y Hx Hy). lia.
Qed.

End PixelFacts.

(** ** Claims on [run] *)

Module RunFacts.
Import TypedArray TypedArrayFacts PixelFacts Run.

Lemma put_app_mid {A} (a b : list A) x v i :
  i = Z.of_nat (length a) -> put (a ++ x :: b) i v = a ++ v :: b.
Proof.
  intros ->. unfold put. destruct (Z.ltb_spec (Z.of_nat (length a)) 0); [lia |].
  rewrite Nat2Z.id. rewrite insert_app_r_alt by lia.
  by rewrite Nat.sub_diag.
Qed.

(** The coordinates and labels the loop writes for the points [pts]. *)
Lemma fill_points (pts : list PromptPoint) :
  let N := length pts in
  for_loop N 0 (fill_point pts)
    (replicate (2 * N) (S754_zero false), replicate N (S754_zero false)) =
  (pts ≫= (fun p => [Num.f32_of_int (px p); Num.f32_of_int (py p)]),
   (fun p => Num.f32_of_int (label p)) <$> pts).
Proof.
  intros N.
  set (enc := fun p => [Num.f32_of_int (px p); Num.f32_of_int (py p)]).
  set (lab := fun p => Num.f32_of_int (label p)).
  set (z := S754_zero false).
  pose (P := fun (j : Z) (cl : list spec_float * list spec_float) =>
    fst cl = (take (Z.to_nat j) pts ≫= enc) ++ replicate (2 * (N - Z.to_nat j)) z /\
    snd cl = (lab <$> take (Z.to_nat j) pts) ++ replicate (N - Z.to_nat j) z).
  assert (P (0 + Z.of_nat N) (for_loop N 0 (fill_point pts) (replicate (2 * N) z, replicate N z)))
    as [Hc Hl].
  { apply for_loop_inv.
    - split; simpl; by rewrite Nat.sub_0_r.
    - intros j [c l] Hj [Hc Hl]. cbn [fst snd] in Hc, Hl.
      assert (Z.to_nat j < N)%nat as HjN by lia.
      destruct (lookup_lt_is_Some_2 pts (Z.to_nat j) HjN) as [p Hp].
      assert (get pts j = Some p) as Hget.
      { unfold get. destruct (Z.ltb_spec j 0); [lia | done]. }
      assert (length (take (Z.to_nat j) pts ≫= enc) = (2 * Z.to_nat j)%nat) as Hlen.
      { assert (Z.to_nat j <= length pts)%nat as Hle by (unfold N in HjN; lia).
        revert Hle. generalize (Z.to_nat j) as k. clear.
        induction pts as [| q pts IH]; intros k Hk.
        - by replace k with O by (simpl in Hk; lia).
        - destruct k as [| k]; [done |]. simpl in *. rewrite IH by lia. lia. }
      unfold P, fill_point. cbn [fst snd]. rewrite Hget. cbn [default from_option].
      replace (Z.to_nat (j + 1)) with (S (Z.to_nat j)) by lia.
      rewrite (take_S_r _ _ _ Hp).
      replace (N - Z.to_nat j)%nat with (S (N - S (Z.to_nat j))) in Hc, Hl by lia.
      replace (2 * S (N - S (Z.to_nat j)))%nat
        with (S (S (2 * (N - S (Z.to_nat j))))) in Hc by lia.
      subst c l. split.
      + rewrite bind_app, <- !app_assoc. cbn [replicate].
        rewrite put_app_mid by lia.
        rewrite (cons_middle (Num.f32_of_int (px p))), app_assoc.
        rewrite put_app_mid by (rewrite length_app; simpl; lia).
        rewrite <- app_assoc. done.
      + rewrite fmap_app, <- app_assoc. cbn [replicate].
        rewrite put_app_mid by (rewrite length_fmap, length_take; lia). done. }
  replace (Z.to_nat (0 + Z.of_nat N)) with N in Hc, Hl by lia.
  rewrite Nat.sub_diag in Hc, Hl. unfold N in Hc, Hl.
  rewrite firstn_all in Hc, Hl. cbn [replicate Nat.mul] in Hc, Hl.
  rewrite app_nil_r in Hc, Hl.
  destruct (for_loop N 0 _ _) as [c l]. cbn [fst snd] in Hc, Hl. by subst.
Qed.

(** The nested loops of the upscale: every pixel of the destination gets
    its alpha from the one sample its coordinates map to. *)
Lemma upscale_spec (m : Tensor) (MH MW W H : Z) :
  0 <= W -> 0 <= H ->
  let img := upscale m MH MW W H in
  Z.of_nat (length (data img)) = 4 * W * H /\
  forall x y, 0 <= x < W -> 0 <= y < H ->
    rgba img x y =
      [Some 0; Some 0; Some 0;
       Some (alpha_of (sample (tdata m) MW (src_coord x W MW) (src_coord y H MH)))].
Proof.
  intros HW HH img.
  destruct (grid_loop_spec (fun _ _ => 0) (fun _ _ => 0) (fun _ _ => 0)
              (fun x y => alpha_of (sample (tdata m) MW (src_coord x W MW) (src_coord y H MH)))
              W H (data (new_ImageData W H)))
    as [Hlen Hpix]; [done | done | by apply length_new_ImageData |].
  change (for_loop (Z.to_nat H) 0 _ (data (new_ImageData W H))) with (data img) in Hlen, Hpix.
  split; [done |].
  intros x y Hx Hy. unfold rgba. change (width img) with W.
  by destruct (Hpix x y Hx Hy) as (-> & -> & -> & ->).
Qed.

Lemma alpha_of_cases v : alpha_of v = if Num.gt_zero v then 110 else 0.
Proof. unfold alpha_of. by destruct (Num.gt_zero v). Qed.



(** C5, as worded, fails: [run] accepts a mask of shape [0, 0] with no
    element (non-positive source dimensions) and a mask of shape
    [1, 3, 1, 1] whose three elements are not the [1 x 1] the shape is
    read as; in both cases it produces a mask and reports no error. *)
Lemma C5_no_validation :
  (let m := mkTensor [0; 0] [] in
   Run.mask_shape (dims m) = Some (0, 0) /\
   postprocess {["masks" := m]} 1 1 = inr (of_alpha 1 1 [0])) /\
  (let m := mkTensor [1; 3; 1; 1] [Num.of_int 1; Num.of_int 1; Num.of_int 1] in
   Run.mask_shape (dims m) = Some (1, 1) /\
   Z.of_nat (length (tdata m)) <> 1 * 1 /\
   postprocess {["masks" := m]} 1 1 = inr (of_alpha 1 1 [110]) /\
   error (run (fun _ => {["masks" := m]}) (mkTensor [] []) 1 1 (mkState [] None None)) = None).
Proof. repeat split; try reflexivity. simpl. lia. Qed.

(** C5 (amended): [run], on an image of positive dimensions, validates
    neither the dimensions nor the element count of the mask. It fails
    exactly when the engine's output has no mask or the mask
    has a rank other than 2, 3 or 4; such a failure is a hard failure of the
    run: the error is recorded and the mask of the session is left as it
    was, nothing partial being stored. Any other output yields a complete
    [W x H] mask and no error. *)
Theorem C5_run_failures (engine : gmap string Tensor -> gmap string Tensor)
    (image : Tensor) (W H : Z) (st : State) :
  0 < W -> 0 < H ->
  let out := engine (feeds image (points st)) in
  let st' := run engine image W H st in
  ((exists e, postprocess out W H = inl e) <->
   out !! "masks" = None \/
   exists m, out !! "masks" = Some m /\
     length (dims m) <> 2%nat /\ length (dims m) <> 3%nat /\ length (dims m) <> 4%nat) /\
  (forall e, postprocess out W H = inl e -> mask st' = mask st /\ error st' = Some e) /\
  (forall img, postprocess out W H = inr img ->
     mask st' = Some img /\ error st' = None /\
     width img = W /\ height img = H /\ Z.of_nat (length (data img)) = 4 * W * H).
Proof.
  intros HW HH out st'. split; [| split].
  - unfold postprocess. destruct (out !! "masks") as [m |] eqn:Hm.
    + assert (mask_shape (dims m) = None <->
              length (dims m) <> 2%nat /\ length (dims m) <> 3%nat /\ length (dims m) <> 4%nat)
        as Hshape.
      { destruct (dims m) as [| a [| b [| c [| d [| e l]]]]]; simpl; split; try done; lia. }
      destruct (mask_shape (dims m)) as [[MH MW] |] eqn:Hs.
      * split; [by intros [e ?] |].
        intros [? | (m' & [= <-] & Hr)]; [done |]. apply Hshape in Hr. done.
      * split; [| by eexists]. intros _. right. exists m. split; [done |]. by apply Hshape.
    + split; [by left | by eexists].
  - intros e He. unfold st', run. fold out. by rewrite He.
  - intros img Himg. unfold st', run. fold out. rewrite Himg. cbn [mask error].
    split; [done |]. split; [done |].
    unfold postprocess in Himg.
    destruct (out !! "masks") as [m |]; [| done].
    destruct (mask_shape (dims m)) as [[MH MW] |]; [| done].
    injection Himg as <-.
    split; [done |]. split; [done |]. apply upscale_spec; lia.
Qed.

Lemma C5_run_failures_witness :
  0 < 4 /\ 0 < 4 /\
  mask (run (fun _ => ∅) (mkTensor [] []) 4 4 (mkState [] None None)) = None /\
  error (run (fun _ => ∅) (mkTensor [] []) 4 4 (mkState [] None None)) = Some MaskNotFound.
Proof.
  assert (0 < 4) as H4 by lia.
  split; [exact H4 |]. split; [exact H4 |].
  exact (proj1 (proj2 (C5_run_failures (fun _ => ∅) (mkTensor [] []) 4 4
                         (mkState [] None None) H4 H4)) MaskNotFound eq_refl).
Defined.

End RunFacts.

(** ** Claims on the exported mask image *)

Module OverlayFacts.
Import TypedArray TypedArrayFacts PixelFacts Overlay Examples.

Lemma quads_exact (n : Z) (d : list Z) :
  0 <= n -> Z.of_nat (length d) = 4 * n -> quads (length d) = Z.to_nat n.
Proof.
  intros Hn Hlen. unfold quads. rewrite Hlen. f_equal.
  symmetry. apply (Z.div_unique _ _ _ 3); lia.
Qed.

(** X7: without prompt points the exported image is the occupancy grid: white
    everywhere, opaque exactly on the occupied pixels. *)
Lemma exportPNG_without_points (msk : ImageData) :
  wf_image msk ->
  let exported := exportPNG (draw (width msk) (height msk) (Some msk) []) in
  width exported = width msk /\ height exported = height msk /\
  forall x y, 0 <= x < width msk -> 0 <= y < height msk ->
    rgba exported x y =
      [Some 255; Some 255; Some 255; Some (if Tracer.isOn msk x y then 255 else 0)].
Proof.
  intros (HW & HH & Hlen) exported.
  set (W := width msk) in *. set (H := height msk) in *.
  assert (0 <= W * H) as HWH by nia.
  (* the tinted copy of the mask *)
  destruct (linear_loop_spec (fun _ => 0) (fun _ => 255) (fun _ => 0)
              (fun k => default 0 (get (data msk) (4 * k + 3)))
              (W * H) (data (new_ImageData W H)))
    as [Htl Htint]; [done | rewrite length_new_ImageData; lia |].
  assert (data (tint msk) =
          for_loop (Z.to_nat (W * H)) 0
            (fun k d => put (put (put (put d (4 * k + 0) 0) (4 * k + 1) 255)
                                 (4 * k + 2) 0)
                            (4 * k + 3) (default 0 (get (data msk) (4 * k + 3))))
            (data (new_ImageData W H))) as Htd.
  { unfold tint. cbn [data]. rewrite (quads_exact (W * H)) by lia. done. }
  rewrite <- Htd in Htl, Htint.
  (* the overlay canvas *)
  set (overlay := draw W H (Some msk) []).
  destruct (grid_loop_spec
              (fun x y => default 0 (get (data (tint msk)) ((y * W + x) * 4 + 0)))
              (fun x y => default 0 (get (data (tint msk)) ((y * W + x) * 4 + 1)))
              (fun x y => default 0 (get (data (tint msk)) ((y * W + x) * 4 + 2)))
              (fun x y => default 0 (get (data (tint msk)) ((y * W + x) * 4 + 3)))
              W H (data (new_ImageData W H)))
    as [Hol Hov]; [lia | lia | rewrite length_new_ImageData; lia |].
  assert (data overlay =
          for_loop (Z.to_nat H) 0
            (fun y d => for_loop (Z.to_nat W) 0
               (fun x d =>
                  put (put (put (put d ((y * W + x) * 4 + 0)
                       (default 0 (get (data (tint msk)) ((y * W + x) * 4 + 0))))
                       ((y * W + x) * 4 + 1)
                       (default 0 (get (data (tint msk)) ((y * W + x) * 4 + 1))))
                       ((y * W + x) * 4 + 2)
                       (default 0 (get (data (tint msk)) ((y * W + x) * 4 + 2))))
                       ((y * W + x) * 4 + 3)
                       (default 0 (get (data (tint msk)) ((y * W + x) * 4 + 3)))) d)
            (data (new_ImageData W H))) as Hod.
  { unfold overlay, draw, putImageData. cbn [foldl data width height new_ImageData tint].
    fold W H. rewrite !Z.min_id. done. }
  rewrite <- Hod in Hol, Hov.
  assert (forall x y, 0 <= x < W -> 0 <= y < H ->
            get (data overlay) ((y * W + x) * 4 + 3) =
            Some (default 0 (get (data msk) ((y * W + x) * 4 + 3)))) as Halpha.
  { intros x y Hx Hy. destruct (Hov x y Hx Hy) as (_ & _ & _ & ->).
    pose proof (pixel_index_bound W H x y Hx Hy) as Hb.
    destruct (Htint (y * W + x) Hb) as (_ & _ & _ & Ht3).
    replace ((y * W + x) * 4 + 3) with (4 * (y * W + x) + 3) by lia.
    by rewrite Ht3. }
  (* the exported image *)
  destruct (linear_loop_spec (fun _ => 255) (fun _ => 255) (fun _ => 255)
              (fun k => if gt0 (get (data overlay) (4 * k + 3)) then 255 else 0)
              (W * H) (data (new_ImageData W H)))
    as [Hel Hexp]; [done | rewrite length_new_ImageData; lia |].
  assert (data exported =
          for_loop (Z.to_nat (W * H)) 0
            (fun k d => put (put (put (put d (4 * k + 0) 255) (4 * k + 1) 255)
                                 (4 * k + 2) 255)
                            (4 * k + 3)
                            (if gt0 (get (data overlay) (4 * k + 3)) then 255 else 0))
            (data (new_ImageData W H))) as Hed.
  { unfold exported, exportPNG. fold overlay. cbn [data].
    rewrite (quads_exact (W * H)) by lia. done. }
  rewrite <- Hed in Hel, Hexp.
  split; [done |]. split; [done |].
  intros x y Hx Hy. unfold rgba. change (width exported) with W.
  pose proof (pixel_index_bound W H x y Hx Hy) as Hb.
  destruct (Hexp (y * W + x) Hb) as (H0 & H1 & H2 & H3).
  replace ((y * W + x) * 4) with (4 * (y * W + x)) by lia.
  rewrite H0, H1, H2, H3. do 4 f_equal.
  replace (4 * (y * W + x) + 3) with ((y * W + x) * 4 + 3) by lia.
  rewrite (Halpha x y Hx Hy). unfold Tracer.isOn. fold W.
  destruct (get (data msk) ((y * W + x) * 4 + 3)) as [v |] eqn:Hget; [done |].
  exfalso. unfold get in Hget. destruct (Z.ltb_spec ((y * W + x) * 4 + 3) 0); [lia |].
  apply lookup_ge_None in Hget. lia.
Qed.

(** C9, at a failing input: a run with one prompt point at (6, 6) on a
    12 x 12 image whose mask has no occupied pixel. [draw] paints the marker
    of the point onto the overlay canvas, [exportPNG] reads the mask back
    from that canvas, and the exported image is opaque white at (6, 6), a
    pixel the occupancy grid does not hold, while (0, 0), away from the
    marker, is transparent as it should be. *)
Theorem C9_marker_in_exported_mask :
  wf_image blank_mask /\
  Tracer.find_seed blank_mask = (-1, -1) /\
  Tracer.isOn blank_mask 6 6 = false /\
  let exported := exportPNG (draw 12 12 (Some blank_mask) [middle_point]) in
  width exported = 12 /\ height exported = 12 /\
  rgba exported 6 6 = [Some 255; Some 255; Some 255; Some 255] /\
  rgba exported 0 0 = [Some 255; Some 255; Some 255; Some 0] /\
  rgba (exportPNG (draw 12 12 (Some blank_mask) [])) 6 6 =
    [Some 255; Some 255; Some 255; Some 0].
Proof.
  split; [repeat split; reflexivity |].
  split; [by vm_compute |]. split; [by vm_compute |].
  vm_compute. repeat split; reflexivity.
Qed.

End OverlayFacts.


(** ** Rounding of binary64 numbers *)

Module FloatFacts.
Import Num.

Lemma digits2_size p : digits2_pos p = Pos.size p.
Proof. induction p as [p IH | p IH |]; simpl; by rewrite ?IH. Qed.

(** A positive number of [d] binary digits lies in [[2^(d-1), 2^d)]. *)
Lemma digits_bounds (m : Z) :
  0 < m -> 0 < Zdigits2 m /\ 2 ^ (Zdigits2 m - 1) <= m < 2 ^ Zdigits2 m.
Proof.
  intros Hm. destruct m as [| p | p]; try lia. simpl Zdigits2.
  rewrite digits2_size. split; [lia |].
  pose proof (Pos.size_gt p) as Hgt. pose proof (Pos.size_le p) as Hle.
  assert (Z.pos (2 ^ Pos.size p) = 2 ^ Z.pos (Pos.size p)) as Hpow
    by (by rewrite Pos2Z.inj_pow).
  split.
  - assert (2 ^ Z.pos (Pos.size p) = 2 * 2 ^ (Z.pos (Pos.size p) - 1)) as Hs.
    { rewrite <- Z.pow_succ_r by lia. f_equal. lia. }
    lia.
  - lia.
Qed.

Lemma digits_unique (m d : Z) :
  0 < d -> 2 ^ (d - 1) <= m < 2 ^ d -> Zdigits2 m = d.
Proof.
  intros Hd Hm.
  assert (0 < m) as Hpos by (pose proof (Z.pow_pos_nonneg 2 (d - 1)); lia).
  destruct (digits_bounds m Hpos) as [Hd' Hm'].
  destruct (Z.lt_trichotomy (Zdigits2 m) d) as [Hlt | [Heq | Hgt]]; [| done |].
  - assert (2 ^ Zdigits2 m <= 2 ^ (d - 1)) by (apply Z.pow_le_mono_r; lia). lia.
  - assert (2 ^ d <= 2 ^ (Zdigits2 m - 1)) by (apply Z.pow_le_mono_r; lia). lia.
Qed.

(** [iter_pos] is plain iteration. *)
Lemma iter_pos_nat {A} (f : A -> A) p x :
  SpecFloat.iter_pos f p x = Nat.iter (Pos.to_nat p) f x.
Proof.
  revert x. induction p as [p IH | p IH |]; intros x; cbn [SpecFloat.iter_pos].
  - rewrite !IH, Pos2Nat.inj_xI. cbn [Nat.mul].
    rewrite Nat.add_0_r, !TracerFacts.iter_shift.
    change (Nat.iter (S ?n) f x) with (f (Nat.iter n f x)).
    by rewrite Nat.iter_add.
  - rewrite !IH, Pos2Nat.inj_xO. cbn [Nat.mul].
    rewrite Nat.add_0_r, Nat.iter_add. done.
  - done.
Qed.

(** One shift to the right halves the mantissa and keeps the bit that
    falls off as the rounding bit. *)
Lemma shr_1_spec m r s :
  0 <= m ->
  shr_m (shr_1 (Build_shr_record m r s)) = m / 2 /\
  (shr_r (shr_1 (Build_shr_record m r s)) = true -> m mod 2 = 1).
Proof.
  intros Hm. destruct m as [| [p | p |] | p]; try lia; simpl.
  - done.
  - split; [| intros _].
    + rewrite Pos2Z.inj_xI. apply (Z.div_unique _ _ _ 1); lia.
    + rewrite Pos2Z.inj_xI. symmetry. apply (Z.mod_unique _ _ (Z.pos p)); lia.
  - split; [| done].
    rewrite Pos2Z.inj_xO. apply (Z.div_unique _ _ _ 0); lia.
  - split; [done | done].
Qed.

(** [k >= 1] shifts: the mantissa is divided by [2^k], and a set rounding
    bit means that the part shifted out is at least half of [2^k]. *)
Lemma shr_iter_spec (k : nat) m r s :
  0 <= m -> (0 < k)%nat ->
  let res := Nat.iter k shr_1 (Build_shr_record m r s) in
  shr_m res = m / 2 ^ Z.of_nat k /\
  (shr_r res = true -> 2 ^ (Z.of_nat k - 1) <= m mod 2 ^ Z.of_nat k).
Proof.
  intros Hm Hk. induction k as [| k IH]; [lia |].
  destruct k as [| k].
  - simpl Nat.iter. destruct (shr_1_spec m r s Hm) as [H1 H2].
    change (2 ^ Z.of_nat 1) with 2. change (2 ^ (Z.of_nat 1 - 1)) with 1.
    split; [done |]. intros Hr. rewrite (H2 Hr). lia.
  - destruct IH as [IHm IHr]; [lia |].
    cbn zeta in *. set (prev := Nat.iter (S k) shr_1 (Build_shr_record m r s)) in *.
    change (Nat.iter (S (S k)) shr_1 (Build_shr_record m r s)) with (shr_1 prev).
    destruct prev as [pm pr ps]. simpl in IHm. subst pm.
    assert (0 <= m / 2 ^ Z.of_nat (S k)) as Hq by (apply Z.div_pos; lia).
    destruct (shr_1_spec (m / 2 ^ Z.of_nat (S k)) pr ps Hq) as [H1 H2].
    set (K := Z.of_nat (S k)) in *.
    replace (Z.of_nat (S (S k))) with (K + 1) by lia.
    assert (0 < 2 ^ K) as HK by (apply Z.pow_pos_nonneg; lia).
    assert (2 ^ (K + 1) = 2 ^ K * 2) as Hpow by (rewrite Z.pow_add_r by lia; done).
    split.
    + rewrite H1, Hpow. rewrite Z.div_div by lia. done.
    + intros Hr. specialize (H2 Hr).
      replace (K + 1 - 1) with K by lia. rewrite Hpow.
      rewrite Z.rem_mul_r by lia. 
      pose proof (Z.mod_pos_bound m (2 ^ K) HK). nia.
Qed.

(** Rounding to nearest even adds at most one, and only on a set rounding
    bit. *)
Lemma rne_spec mrs :
  let R := round_nearest_even (shr_m mrs) (loc_of_shr_record mrs) in
  R = shr_m mrs \/ (R = shr_m mrs + 1 /\ shr_r mrs = true).
Proof.
  destruct mrs as [m [] []]; simpl; try destruct (Z.even m); auto.
Qed.

Lemma shr_spec m l e n :
  0 <= m -> 0 <= n ->
  let res := shr (shr_record_of_loc m l) e n in
  snd res = e + n /\ shr_m (fst res) = m / 2 ^ n /\
  (shr_r (fst res) = true -> half_cut m n l).
Proof.
  intros Hm Hn. destruct n as [| p | p]; [| | lia].
  - simpl. rewrite Z.div_1_r. split; [lia |]. split.
    + by destruct l as [| []].
    + unfold half_cut. simpl. destruct l as [| []]; simpl; intros; auto; done.
  - cbn [shr fst snd]. split; [done |]. rewrite iter_pos_nat.
    assert (exists r s, shr_record_of_loc m l = Build_shr_record m r s) as (r & s & ->).
    { destruct l as [| []]; simpl; eauto. }
    destruct (shr_iter_spec (Pos.to_nat p) m r s Hm) as [H1 H2]; [lia |].
    rewrite positive_nat_Z in H1, H2. split; [done |].
    intros Hr. unfold half_cut. simpl. by apply H2.
Qed.

(** The rounding step shared by the operations, on a positive mantissa of
    at least 53 digits whose rounded exponent stays in the normal range:
    [n] digits are cut off and the mantissa [R] that is left is then rounded
    to nearest even; a carry into a 54th digit is shifted back. *)
Lemma round_aux_spec (m e : Z) (l : location) :
  0 < m -> 53 <= Zdigits2 m ->
  let n := Zdigits2 m - 53 in
  -1074 <= e + n -> e + n < 971 ->
  exists R,
    (R = m / 2 ^ n \/ (R = m / 2 ^ n + 1 /\ half_cut m n l)) /\
    2 ^ 52 <= m / 2 ^ n < 2 ^ 53 /\
    binary_round_aux prec64 emax64 false m e l =
      if R <? 2 ^ 53 then S754_finite false (Z.to_pos R) (e + n)
      else S754_finite false (Z.to_pos (2 ^ 52)) (e + n + 1).
Proof.
  intros Hm Hd n Hlo Hhi.
  destruct (digits_bounds m Hm) as [_ Hdig].
  assert (0 <= n) as Hn by (unfold n; lia).
  assert (0 < 2 ^ n) as Hpn by (apply Z.pow_pos_nonneg; lia).
  assert (2 ^ 52 <= m / 2 ^ n < 2 ^ 53) as Hq.
  { assert (2 ^ (Zdigits2 m - 1) = 2 ^ 52 * 2 ^ n) as E1.
    { rewrite <- Z.pow_add_r by lia. f_equal. unfold n. lia. }
    assert (2 ^ Zdigits2 m = 2 ^ 53 * 2 ^ n) as E2.
    { rewrite <- Z.pow_add_r by lia. f_equal. unfold n. lia. }
    split.
    - apply Z.div_le_lower_bound; lia.
    - apply Z.div_lt_upper_bound; lia. }
  unfold binary_round_aux, shr_fexp.
  assert (fexp prec64 emax64 (Zdigits2 m + e) - e = n) as ->.
  { unfold fexp, emin, prec64, emax64, n. lia. }
  destruct (shr_spec m l e n) as (He' & Hm' & Hr'); [lia | lia |].
  destruct (shr (shr_record_of_loc m l) e n) as [mrs e'] eqn:Hshr.
  cbn [fst snd] in He', Hm', Hr'. subst e'.
  set (R := round_nearest_even (shr_m mrs) (loc_of_shr_record mrs)).
  exists R.
  assert (R = m / 2 ^ n \/ (R = m / 2 ^ n + 1 /\ half_cut m n l)) as HR.
  { destruct (rne_spec mrs) as [HR | [HR Hbit]]; fold R in HR; rewrite Hm' in HR; auto. }
  split; [done |]. split; [done |].
  destruct (Z.ltb_spec R (2 ^ 53)) as [Hlt | Hge].
  - assert (Zdigits2 R = 53) as HdR by (apply digits_unique; simpl; lia).
    assert (fexp prec64 emax64 (Zdigits2 R + (e + n)) - (e + n) = 0) as ->.
    { rewrite HdR. unfold fexp, emin, prec64, emax64. lia. }
    cbn [shr shr_record_of_loc shr_m].
    destruct R as [| p | p]; try lia.
    destruct (Z.leb_spec (e + n) (emax64 - prec64)) as [_ | Hbad]; [done |].
    unfold emax64, prec64 in Hbad. lia.
  - assert (R = 2 ^ 53) as -> by lia.
    assert (fexp prec64 emax64 (Zdigits2 (2 ^ 53) + (e + n)) - (e + n) = 1) as ->.
    { change (Zdigits2 (2 ^ 53)) with 54. unfold fexp, emin, prec64, emax64. lia. }
    change (shr (shr_record_of_loc (2 ^ 53) loc_Exact) (e + n) 1)
      with (Build_shr_record 4503599627370496 false false, e + n + 1).
    change (2 ^ 52) with 4503599627370496. cbn [shr_m Z.to_pos].
    destruct (Z.leb_spec (e + n + 1) (emax64 - prec64)) as [_ | Hbad]; [done |].
    unfold emax64, prec64 in Hbad. lia.
Qed.

Lemma iter_xO p d : Z.pos (Pos.iter xO p d) = Z.pos p * 2 ^ Z.pos d.
Proof.
  induction d as [| d IH] using Pos.peano_ind.
  - simpl. lia.
  - rewrite Pos.iter_succ, Pos2Z.inj_xO, IH, Pos2Z.inj_succ, Z.pow_succ_r by lia. lia.
Qed.

(** A mantissa of exactly [prec] digits with an exponent of the format is
    left as it is. *)
Lemma round_aux_exact (prec emax m e : Z) :
  0 < m -> Zdigits2 m = prec ->
  3 - emax - prec <= e <= emax - prec ->
  binary_round_aux prec emax false m e loc_Exact = S754_finite false (Z.to_pos m) e.
Proof.
  intros Hm Hd He. unfold binary_round_aux, shr_fexp.
  assert (fexp prec emax (Zdigits2 m + e) - e = 0) as Hshift.
  { rewrite Hd. unfold fexp, emin. lia. }
  rewrite Hshift. cbn [shr shr_record_of_loc shr_m loc_of_shr_record round_nearest_even].
  rewrite Hshift. cbn [shr shr_record_of_loc shr_m].
  destruct m as [| p | p]; try lia.
  destruct (Z.leb_spec e (emax - prec)); [done | lia].
Qed.

(** An integer of at most [prec] digits is held exactly, in binary64 and
    in binary32 alike: the mantissa is the integer shifted to [prec] digits. *)
Lemma int_normal (prec emax n : Z) :
  1 < prec <= emax -> 0 < n < 2 ^ prec ->
  let d := Zdigits2 n in
  d <= prec /\
  2 ^ (prec - 1) <= n * 2 ^ (prec - d) < 2 ^ prec /\
  binary_normalize prec emax n 0 false =
    S754_finite false (Z.to_pos (n * 2 ^ (prec - d))) (d - prec).
Proof.
  intros Hprec Hn d. destruct n as [| p | p]; try lia.
  destruct (digits_bounds (Z.pos p)) as [Hd Hb]; [lia |]. fold d in Hd, Hb.
  assert (d <= prec) as Hdp.
  { destruct (Z.le_gt_cases d prec) as [? | Hgt]; [done |].
    assert (2 ^ prec <= 2 ^ (d - 1)) by (apply Z.pow_le_mono_r; lia). lia. }
  assert (2 ^ (prec - 1) <= Z.pos p * 2 ^ (prec - d) < 2 ^ prec) as HM.
  { assert (2 ^ (prec - 1) = 2 ^ (d - 1) * 2 ^ (prec - d)) as E1.
    { rewrite <- Z.pow_add_r by lia. f_equal. lia. }
    assert (2 ^ prec = 2 ^ d * 2 ^ (prec - d)) as E2.
    { rewrite <- Z.pow_add_r by lia. f_equal. lia. }
    assert (0 < 2 ^ (prec - d)) by (apply Z.pow_pos_nonneg; lia).
    rewrite E1, E2. split; [apply Z.mul_le_mono_nonneg_r | apply Z.mul_lt_mono_pos_r]; lia. }
  split; [done |]. split; [done |].
  assert (0 < 2 ^ (prec - 1)) as Hpp by (apply Z.pow_pos_nonneg; lia).
  unfold binary_normalize, binary_round.
  assert (shl_align p 0 (fexp prec emax (Z.pos (digits2_pos p) + 0)) =
          (Z.to_pos (Z.pos p * 2 ^ (prec - d)), d - prec)) as ->.
  { unfold shl_align. change (Z.pos (digits2_pos p)) with d.
    assert (fexp prec emax (d + 0) = d - prec) as ->
      by (unfold fexp, emin; lia).
    destruct (d - prec - 0) as [| k | k] eqn:Hk; try lia.
    - replace (prec - d) with 0 by lia. replace (d - prec) with 0 by lia.
      f_equal. rewrite Z.mul_1_r. done.
    - f_equal. apply Pos2Z.inj. rewrite iter_xO, Z2Pos.id by lia.
      f_equal. f_equal. lia. }
  rewrite Z2Pos.id by lia.
  apply round_aux_exact; [lia | apply digits_unique; lia | lia].
Qed.

(** An integer below [2^53] is held exactly by a number. *)
Lemma of_int_normal (n : Z) :
  0 < n < 2 ^ 53 ->
  exists M E, normal (of_int n) M E /\ -52 <= E <= 0 /\ M = n * 2 ^ (- E).
Proof.
  intros Hn.
  destruct (int_normal prec64 emax64 n) as (Hd & HM & Hf); [done | done |].
  destruct (digits_bounds n) as [Hd0 _]; [lia |].
  exists (n * 2 ^ (53 - Zdigits2 n)), (Zdigits2 n - 53).
  split; [split; [exact Hf | exact HM] |].
  unfold prec64 in Hd. split; [lia |]. f_equal. f_equal. lia.
Qed.

(** A pixel coordinate below [2^24] is kept exactly by a [Float32Array]. *)
Lemma f32_of_int_exact (n : Z) :
  0 <= n < 2 ^ 24 -> to_int (f32_of_int n) = Some n.
Proof.
  intros Hn. destruct (Z.eq_dec n 0) as [-> | Hne]; [done |].
  destruct (int_normal prec32 emax32 n) as (Hd & HM & Hf);
    [done | unfold prec32; lia |].
  destruct (digits_bounds n) as [Hd0 _]; [lia |].
  unfold f32_of_int. rewrite Hf. unfold prec32 in *.
  set (k := 24 - Zdigits2 n) in *.
  assert (0 < 2 ^ k) as Hk by (apply Z.pow_pos_nonneg; lia).
  unfold to_int. rewrite Z2Pos.id by lia.
  destruct (Z.leb_spec 0 (Zdigits2 n - 24)) as [Hz | Hneg].
  - replace (Zdigits2 n - 24) with 0 by lia. replace k with 0 by lia.
    f_equal. simpl. lia.
  - replace (- (Zdigits2 n - 24)) with k by lia.
    rewrite Z.mod_mul by lia. cbn [Z.eqb]. rewrite Z.div_mul by lia. done.
Qed.

(** A quotient is rounded up only when the remainder is at least half the
    divisor. *)
Lemma new_location_half b r :
  new_location b r = loc_Inexact Eq \/ new_location b r = loc_Inexact Gt ->
  b <= 2 * r.
Proof.
  unfold new_location, new_location_even, new_location_odd.
  destruct (Z.even b); destruct (r =? 0).
  - by intros [? | ?].
  - destruct (Z.compare_spec (2 * r) b); intros [? | ?]; (done || lia).
  - by intros [? | ?].
  - destruct (Z.compare_spec (2 * r + 1) b); intros [? | ?]; (done || lia).
Qed.

(** Integers [x < W] held with 53-digit mantissas: the exponent of [x] is
    not above that of [W], and with equal exponents the mantissas compare as
    the integers do. *)
Lemma normal_compare x W Mx Ex MW EW :
  0 < x < W ->
  2 ^ 52 <= Mx < 2 ^ 53 -> 2 ^ 52 <= MW < 2 ^ 53 ->
  Ex <= 0 -> EW <= 0 ->
  Mx = x * 2 ^ (- Ex) -> MW = W * 2 ^ (- EW) ->
  Ex <= EW /\ (Ex = EW -> Mx < MW).
Proof.
  intros Hx HMx HMW HEx HEW Hmx Hmw.
  assert (0 < 2 ^ (- Ex)) as Hpx by (apply Z.pow_pos_nonneg; lia).
  assert (0 < 2 ^ (- EW)) as Hpw by (apply Z.pow_pos_nonneg; lia).
  split.
  - destruct (Z.le_gt_cases Ex EW) as [? | Hgt]; [done |]. exfalso.
    assert (2 ^ (- EW) = 2 ^ (- Ex) * 2 ^ (Ex - EW)) as Hsplit.
    { rewrite <- Z.pow_add_r by lia. f_equal. lia. }
    assert (2 <= 2 ^ (Ex - EW)) as H2.
    { change 2 with (2 ^ 1) at 1. apply Z.pow_le_mono_r; lia. }
    assert (x * 2 ^ (- EW) < W * 2 ^ (- EW)) as Hlt
      by (apply Z.mul_lt_mono_pos_r; lia).
    assert (Mx * 2 <= x * 2 ^ (- EW)) as Hge.
    { rewrite Hsplit, Z.mul_assoc, <- Hmx. apply Z.mul_le_mono_nonneg_l; lia. }
    change (2 ^ 52) with 4503599627370496 in *.
    change (2 ^ 53) with 9007199254740992 in *. lia.
  - intros ->. subst Mx MW. apply Z.mul_lt_mono_pos_r; lia.
Qed.

(** [x / W] for integers [0 < x < W < 2^53] is a number below one: a
    53-digit mantissa with an exponent of at most [-53]. *)
Lemma div_below_one (x W : Z) :
  0 < x < W -> W < 2 ^ 53 ->
  exists Mq Eq, normal (div (of_int x) (of_int W)) Mq Eq /\ -110 <= Eq <= -53.
Proof.
  intros Hx HW.
  destruct (of_int_normal x) as (Mx & Ex & [Hfx HMx] & HEx & Hmx); [lia |].
  destruct (of_int_normal W) as (MW & EW & [HfW HMW] & HEW & Hmw); [lia |].
  destruct (normal_compare x W Mx Ex MW EW) as [Hexp Hman]; try done; try lia.
  rewrite Hfx, HfW. unfold div, SFdiv, SFdiv_core_binary.
  rewrite !Z2Pos.id by lia.
  assert (Zdigits2 Mx = 53) as -> by (apply digits_unique; simpl; lia).
  assert (Zdigits2 MW = 53) as -> by (apply digits_unique; simpl; lia).
  assert (Z.min (fexp prec64 emax64 (53 + Ex - (53 + EW))) (Ex - EW) = Ex - EW - 53) as ->
    by (unfold fexp, emin, prec64, emax64; lia).
  replace (Ex - EW - (Ex - EW - 53)) with 53 by lia. cbv iota.
  rewrite Z.shiftl_mul_pow2 by lia.
  pose proof (Z_div_mod (Mx * 2 ^ 53) MW) as Hdm.
  destruct (Z.div_eucl (Mx * 2 ^ 53) MW) as [q r].
  destruct Hdm as [Hqr Hr]; [lia |]. cbn [xorb].
  change (2 ^ 52) with 4503599627370496 in *.
  change (2 ^ 53) with 9007199254740992 in *.
  assert (4503599627370496 <= q < 18014398509481984) as Hq by nia.
  assert (Zdigits2 q = 53 \/ Zdigits2 q = 54) as Hd.
  { destruct (Z.lt_ge_cases q 9007199254740992).
    - left. apply digits_unique; simpl; lia.
    - right. apply digits_unique; simpl; lia. }
  pose proof (round_aux_spec q (Ex - EW - 53) (new_location MW r)) as Hra.
  cbv zeta in Hra.
  change (2 ^ 52) with 4503599627370496 in Hra.
  change (2 ^ 53) with 9007199254740992 in Hra.
  destruct Hd as [Hd | Hd]; rewrite Hd in Hra.
  - (* the quotient has 53 digits: nothing is cut off *)
    change (53 - 53) with 0 in Hra. rewrite Z.div_1_r in Hra.
    destruct Hra as (R & HR & _ & ->); try lia.
    assert (q < 9007199254740992) as Hq53.
    { destruct (digits_bounds q) as [_ Hb]; [lia |]. rewrite Hd in Hb. simpl in Hb. lia. }
    assert (R = q \/ (R = q + 1 /\ MW <= 2 * r)) as HR'.
    { destruct HR as [-> | [-> Hcut]]; [by left | right].
      split; [done |]. by apply new_location_half. }
    destruct (Z.ltb_spec R 9007199254740992) as [Hlt | Hge].
    + exists R, (Ex - EW - 53 + 0). split; [split; [done | lia] | lia].
    + exists 4503599627370496, (Ex - EW - 53 + 0 + 1).
      split; [split; [done | lia] |].
      assert (Ex <> EW); [| lia].
      intros ->. specialize (Hman eq_refl). nia.
  - (* the quotient has 54 digits: one is cut off *)
    change (54 - 53) with 1 in Hra. change (2 ^ 1) with 2 in Hra.
    destruct Hra as (R & HR & Hq2 & ->); try lia.
    assert (9007199254740992 <= q) as Hq54.
    { destruct (digits_bounds q) as [_ Hb]; [lia |]. rewrite Hd in Hb. simpl in Hb. lia. }
    assert (MW <= Mx) as Hge by nia.
    assert (Ex < EW) as Hlt.
    { destruct (Z.eq_dec Ex EW) as [Heq | Hne]; [| lia]. specialize (Hman Heq). lia. }
    destruct (Z.ltb_spec R 9007199254740992) as [HltR | HgeR].
    + exists R, (Ex - EW - 53 + 1). split; [split; [done | lia] | lia].
    + exists 4503599627370496, (Ex - EW - 53 + 1 + 1).
      split; [split; [done | lia] |].
      assert (Ex - EW <> -1); [| lia].
      intros Heq.
      destruct HR as [-> | [-> Hcut]]; [lia |].
      unfold half_cut in Hcut. simpl in Hcut.
      change (2 ^ (1 - 1)) with 1 in Hcut. change (2 ^ 1) with 2 in Hcut.
      pose proof (Z.div_mod q 2 ltac:(lia)) as Hq2'.
      pose proof (Z.mod_pos_bound q 2 ltac:(lia)) as Hq2''.
      assert (q = 18014398509481983) as -> by lia.
      nia.
Qed.

(** A number below one times an integer [M] floors below [M]: rounding
    the product cannot reach [M]. *)
Lemma mul_floor_below (f : spec_float) (Mq Eq M : Z) :
  normal f Mq Eq -> -110 <= Eq <= -53 -> 0 < M < 2 ^ 53 ->
  exists s, floor (mul f (of_int M)) = Some s /\ 0 <= s < M.
Proof.
  intros [Hf HMq] HEq HM.
  destruct (of_int_normal M) as (mM & eM & [HfM HmM] & HeM & HmM'); [lia |].
  rewrite Hf, HfM. unfold mul, SFmul. cbn [xorb].
  rewrite Pos2Z.inj_mul, !Z2Pos.id by lia.
  set (m := Mq * mM).
  set (j := - Eq). set (a := - eM).
  assert (0 < 2 ^ a) as Hpa by (apply Z.pow_pos_nonneg; lia).
  assert (2 ^ 53 <= 2 ^ j) as Hpj by (apply Z.pow_le_mono_r; lia).
  change (2 ^ 52) with 4503599627370496 in *.
  change (2 ^ 53) with 9007199254740992 in *.
  assert (2 ^ 104 <= m < 2 ^ 106) as Hm.
  { change (2 ^ 104) with (4503599627370496 * 4503599627370496).
    change (2 ^ 106) with (9007199254740992 * 9007199254740992). unfold m. nia. }
  assert (Zdigits2 m = 105 \/ Zdigits2 m = 106) as Hd.
  { destruct (Z.lt_ge_cases m (2 ^ 105)).
    - left. apply digits_unique; [lia |]. change (105 - 1) with 104. lia.
    - right. apply digits_unique; [lia |]. change (106 - 1) with 105. lia. }
  pose proof (round_aux_spec m (Eq + eM) loc_Exact) as Hra. cbv zeta in Hra.
  change (2 ^ 52) with 4503599627370496 in Hra.
  change (2 ^ 53) with 9007199254740992 in Hra.
  set (n := Zdigits2 m - 53) in *.
  assert (n = 52 \/ n = 53) as Hn by (unfold n; lia).
  assert (0 < 2 ^ n) as Hpn by (apply Z.pow_pos_nonneg; lia).
  destruct Hra as (R & HR & Hq & ->); [unfold m; lia | lia | lia | lia |].
  (* the rounded mantissa exceeds the product by at most half a unit *)
  assert (2 ^ n = 2 * 2 ^ (n - 1)) as Hpn2.
  { rewrite <- Z.pow_succ_r by lia. f_equal. lia. }
  assert (R * 2 ^ n <= m + 2 ^ (n - 1)) as Hup.
  { pose proof (Z.div_mod m (2 ^ n) ltac:(lia)) as Hdm.
    pose proof (Z.mod_pos_bound m (2 ^ n) ltac:(lia)) as Hmod.
    destruct HR as [-> | [-> Hcut]].
    - nia.
    - unfold half_cut in Hcut.
      destruct (Z.eqb_spec n 0) as [? | _]; [lia |]. nia. }
  (* half a unit is less than the mantissa of [M] *)
  assert (2 ^ (n - 1) < mM) as Hhalf.
  { destruct Hn as [Hn | Hn]; rewrite Hn.
    - change (2 ^ (52 - 1)) with 2251799813685248. lia.
    - change (2 ^ (53 - 1)) with 4503599627370496.
      assert (2 ^ 105 <= m) as Hm105.
      { destruct (digits_bounds m) as [_ Hb]; [lia |].
        replace (Zdigits2 m) with 106 in Hb by (unfold n in Hn; lia).
        change (106 - 1) with 105 in Hb. lia. }
      change (2 ^ 105) with (9007199254740992 * 4503599627370496) in Hm105.
      unfold m in Hm105. nia. }
  assert (R * 2 ^ n < mM * 2 ^ j) as Hkey.
  { assert (Mq * mM <= (2 ^ j - 1) * mM) as Hle
      by (apply Z.mul_le_mono_nonneg_r; lia).
    replace ((2 ^ j - 1) * mM) with (mM * 2 ^ j - mM) in Hle by ring.
    unfold m in Hup. lia. }
  set (t := j + a - n).
  assert (0 <= t) as Ht by (unfold t, j, a; lia).
  assert (0 < 2 ^ t) as Hpt by (apply Z.pow_pos_nonneg; lia).
  assert (mM * 2 ^ j = M * 2 ^ t * 2 ^ n) as Hscale.
  { rewrite HmM'. fold a. rewrite <- !Z.mul_assoc, <- !Z.pow_add_r by lia.
    f_equal. f_equal. unfold t. lia. }
  assert (R < M * 2 ^ t) as HRM.
  { apply (Z.mul_lt_mono_pos_r (2 ^ n)); [done |]. by rewrite <- Hscale. }
  replace (Eq + eM + n) with (- t) by (unfold t, j, a; lia).
  destruct (Z.ltb_spec R 9007199254740992) as [Hlt | Hge].
  - cbn [floor]. rewrite Z2Pos.id by lia.
    change (Z.shiftl R (- t)) with (Z.shiftr R t). rewrite Z.shiftr_div_pow2 by lia.
    eexists. split; [done |]. split.
    + apply Z.div_pos; lia.
    + apply Z.div_lt_upper_bound; lia.
  - assert (R = 9007199254740992) as -> by lia.
    assert (1 <= t) as Ht1.
    { destruct (Z.eq_dec t 0) as [Ht0 | ?]; [| lia]. rewrite Ht0 in HRM. simpl in HRM. lia. }
    cbn [floor]. change (Z.pos (Z.to_pos 4503599627370496)) with 4503599627370496.
    replace (- t + 1) with (- (t - 1)) by lia.
    change (Z.shiftl 4503599627370496 (- (t - 1))) with (Z.shiftr 4503599627370496 (t - 1)).
    rewrite Z.shiftr_div_pow2 by lia.
    assert (0 < 2 ^ (t - 1)) as Hpt1 by (apply Z.pow_pos_nonneg; lia).
    assert (2 ^ t = 2 * 2 ^ (t - 1)) as Hpt2.
    { rewrite <- Z.pow_succ_r by lia. f_equal. lia. }
    eexists. split; [done |]. split.
    + apply Z.div_pos; lia.
    + apply Z.div_lt_upper_bound; lia.
Qed.

(** The mapped coordinate [floor((x / size) * msize)] of a destination
    index [0 <= x < size] is a source index [0 <= s < msize]. *)
Lemma src_coord_in_range (x size msize : Z) :
  0 <= x < size -> size < 2 ^ 53 -> 0 < msize < 2 ^ 53 ->
  exists s, Run.src_coord x size msize = Some s /\ 0 <= s < msize.
Proof.
  intros Hx Hsize Hm. unfold Run.src_coord.
  destruct (Z.eq_dec x 0) as [-> | Hne].
  - destruct (of_int_normal size) as (Ms & Es & [-> _] & _); [lia |].
    destruct (of_int_normal msize) as (Mm & Em & [-> _] & _); [lia |].
    exists 0. split; [done | lia].
  - destruct (div_below_one x size) as (Mq & Eq & Hq & HEq); [lia | lia |].
    by apply (mul_floor_below _ Mq Eq).
Qed.

End FloatFacts.

(** ** Claims on the source reads of the upscale *)

Module SourceReads.
Import TypedArray TypedArrayFacts Run FloatFacts.

(** Binary64 rounding is visible in the mapping: [(1 / 49) * 49] is just
    below one, so destination column 1 of 49 reads source column 0 of 49;
    and the last column maps to the last column. *)
Lemma src_coord_examples :
  src_coord 1 49 49 = Some 0 /\ src_coord 48 49 49 = Some 48 /\
  src_coord 3 4 2 = Some 1 /\ src_coord 0 4 2 = Some 0.
Proof. repeat split; reflexivity. Qed.

(** C7: for a mask of positive dimensions [MH x MW] holding at least
    [MH * MW] scores, the source coordinates computed for a destination pixel
    [(x, y)] of the image are indices of the mask, [0 <= srcX < MW] and
    [0 <= srcY < MH], also after the roundings of the binary64 division and
    multiplication: they are equal to their own clamping to the valid range,
    and the read [data[srcY * MW + srcX]] hits an element of the buffer. All
    dimensions are integers a number holds exactly (below [2^53]). *)
Theorem C7_source_reads_in_bounds (m : Tensor) (MH MW W H x y : Z) :
  0 < MW < 2 ^ 53 -> 0 < MH < 2 ^ 53 ->
  W < 2 ^ 53 -> H < 2 ^ 53 ->
  0 <= x < W -> 0 <= y < H ->
  MH * MW <= Z.of_nat (length (tdata m)) ->
  exists srcX srcY v,
    src_coord x W MW = Some srcX /\ src_coord y H MH = Some srcY /\
    0 <= srcX < MW /\ 0 <= srcY < MH /\
    Z.max 0 (Z.min (MW - 1) srcX) = srcX /\
    Z.max 0 (Z.min (MH - 1) srcY) = srcY /\
    0 <= srcY * MW + srcX < Z.of_nat (length (tdata m)) /\
    sample (tdata m) MW (src_coord x W MW) (src_coord y H MH) = Some v.
Proof.
  intros HMW HMH HW HH Hx Hy Hlen.
  destruct (src_coord_in_range x W MW) as (srcX & HsX & HX); [done | done | done |].
  destruct (src_coord_in_range y H MH) as (srcY & HsY & HY); [done | done | done |].
  assert (0 <= srcY * MW + srcX < Z.of_nat (length (tdata m))) as Hidx.
  { pose proof (PixelFacts.pixel_index_bound MW MH srcX srcY HX HY). lia. }
  assert (is_Some (get (tdata m) (srcY * MW + srcX))) as [v Hv].
  { unfold get. destruct (Z.ltb_spec (srcY * MW + srcX) 0); [lia |].
    apply lookup_lt_is_Some_2. lia. }
  exists srcX, srcY, v. rewrite HsX, HsY. cbn [sample].
  repeat split; try done; lia.
Qed.

Lemma C7_source_reads_witness :
  0 < 49 < 2 ^ 53 /\ 0 <= 48 < 49 /\
  exists srcX srcY,
    src_coord 48 49 49 = Some srcX /\ src_coord 0 1 1 = Some srcY /\
    0 <= srcX < 49 /\ 0 <= srcY < 1.
Proof.
  assert (0 < 49 < 2 ^ 53) as H49 by (simpl; lia).
  assert (0 < 1 < 2 ^ 53) as H1 by (simpl; lia).
  assert (1 < 2 ^ 53) as H1' by (simpl; lia).
  assert (0 <= 48 < 49) as Hx by lia.
  assert (0 <= 0 < 1) as Hy by lia.
  assert (1 * 49 <= Z.of_nat (length (tdata (mkTensor [1; 49] (replicate 49 (Num.of_int 1))))))
    as Hlen by (simpl; lia).
  split; [exact H49 |]. split; [exact Hx |].
  destruct (C7_source_reads_in_bounds (mkTensor [1; 49] (replicate 49 (Num.of_int 1)))
              1 49 49 1 48 0 H49 H1 (proj2 H49) H1' Hx Hy Hlen)
    as (srcX & srcY & v & HsX & HsY & HX & HY & _).
  exists srcX, srcY. repeat split; assumption || apply HX || apply HY.
Defined.

End SourceReads.

(** ** Claims on the feeds *)

Module Feeds.
Import Run RunFacts FloatFacts.

Lemma foldl_add_point (acc pts : list PromptPoint) :
  foldl add_point acc pts = acc ++ pts.
Proof.
  revert acc. induction pts as [| p pts IH]; intros acc; simpl.
  - by rewrite app_nil_r.
  - rewrite IH. unfold add_point. by rewrite <- app_assoc.
Qed.

(** C10: with no prompt point placed the engine is fed exactly one point,
    the placeholder (0, 0) with the background label 0; with a non-empty list
    it is fed exactly the user's points, in the order of the clicks, each
    with its label. The feeds carry them under [point_coords] (shape
    [1, P, 2]) and [point_labels] (shape [1, P]) as binary32 values, which
    keep every integer below [2^24] as it is. *)
Theorem C10_feeds_points (image : Tensor) (pts : list PromptPoint) :
  point_tensors [] =
    (mkTensor [1; 1; 2] [Num.f32_of_int 0; Num.f32_of_int 0],
     mkTensor [1; 1] [Num.f32_of_int 0]) /\
  (pts <> [] ->
   point_tensors pts =
     (mkTensor [1; Z.of_nat (length pts); 2]
        (pts ≫= (fun p => [Num.f32_of_int (px p); Num.f32_of_int (py p)])),
      mkTensor [1; Z.of_nat (length pts)]
        ((fun p => Num.f32_of_int (label p)) <$> pts))) /\
  feeds image pts !! "point_coords" = Some (fst (point_tensors pts)) /\
  feeds image pts !! "point_labels" = Some (snd (point_tensors pts)) /\
  feeds image pts !! "image" = Some image /\
  foldl add_point [] pts = pts /\
  (forall n, 0 <= n < 2 ^ 24 -> Num.to_int (Num.f32_of_int n) = Some n).
Proof.
  split; [reflexivity |]. split; [| split; [| split; [| split; [| split]]]].
  - intros Hne. unfold point_tensors.
    assert (0 < length pts)%nat as Hlen by (destruct pts; [done | simpl; lia]).
    rewrite Z.max_l by lia.
    replace (Z.to_nat (1 * Z.of_nat (length pts) * 2)) with (2 * length pts)%nat by lia.
    replace (Z.to_nat (1 * Z.of_nat (length pts))) with (length pts) by lia.
    rewrite Nat2Z.id. pose proof (fill_points pts) as Hfill. cbv zeta in Hfill.
    by rewrite Hfill.
  - unfold feeds. by simplify_map_eq.
  - unfold feeds. by simplify_map_eq.
  - unfold feeds. by simplify_map_eq.
  - apply foldl_add_point.
  - apply f32_of_int_exact.
Qed.

Lemma C10_feeds_points_witness :
  [mkPoint 3 4 1; mkPoint 7 8 0] <> [] /\
  tdata (fst (point_tensors [mkPoint 3 4 1; mkPoint 7 8 0])) =
    [Num.f32_of_int 3; Num.f32_of_int 4; Num.f32_of_int 7; Num.f32_of_int 8] /\
  tdata (snd (point_tensors [mkPoint 3 4 1; mkPoint 7 8 0])) =
    [Num.f32_of_int 1; Num.f32_of_int 0].
Proof.
  assert ([mkPoint 3 4 1; mkPoint 7 8 0] <> []) as Hne by discriminate.
  split; [exact Hne |].
  rewrite (proj1 (proj2 (C10_feeds_points (mkTensor [] []) _)) Hne).
  split; reflexivity.
Defined.

End Feeds.

(** ** Further properties of the border walk *)

Module TracerExtras.
Import Tracer TracerFacts TracerClaims Examples Path.

Lemma scan_row_first id y n x0 x :
  scan_row id y n x0 = Some x ->
  forall x', x0 <= x' < x -> isOn id x' y = false.
Proof.
  revert x0. induction n as [| n IH]; intros x0; simpl; [done |].
  destruct (isOn id x0 y) eqn:Hon.
  - intros [= <-] x' Hx'. lia.
  - intros Hs x' Hx'. destruct (Z.eq_dec x' x0) as [-> | Hne]; [done |].
    apply (IH _ Hs). lia.
Qed.

Lemma scan_rows_first id n y0 sx sy :
  0 <= y0 ->
  scan_rows id n y0 (-1) (-1) = (sx, sy) -> sx <> -1 ->
  forall x y, 0 <= x < width id -> y0 <= y ->
    scanned_before x y sx sy -> isOn id x y = false.
Proof.
  revert y0. induction n as [| n IH]; intros y0 Hy0; simpl.
  - intros [= <- <-]. done.
  - destruct (scan_row id y0 (Z.to_nat (width id)) 0) as [x0 |] eqn:Hrow.
    + rewrite scan_rows_done by lia. intros [= <- <-] _ x y Hx Hy [Hlt | [-> Hlt]]; [lia |].
      apply (scan_row_first _ _ _ _ _ Hrow). lia.
    + intros Hs Hsx x y Hx Hy Hbefore.
      destruct (Z.eq_dec y y0) as [-> | Hne].
      * apply (scan_row_None _ _ _ _ Hrow). lia.
      * apply (IH (y0 + 1)); try done; lia.
Qed.

(** X1: the seed is the first occupied pixel of the scan, rows from the top and
    columns from the left, and the one ring of the downloaded polygon starts
    on it. *)
Theorem seed_first_in_scan (id : ImageData) :
  wf_image id ->
  (exists x y, 0 <= x < width id /\ 0 <= y < height id /\ isOn id x y = true) ->
  exists sx sy rest,
    find_seed id = (sx, sy) /\
    0 <= sx < width id /\ 0 <= sy < height id /\ isOn id sx sy = true /\
    (forall x y, 0 <= x < width id -> 0 <= y < height id ->
       scanned_before x y sx sy -> isOn id x y = false) /\
    exportPolygon (Some id) = [Download "mask.geojson" [(sx, sy) :: rest]].
Proof.
  intros Hwf Hsome.
  destruct (find_seed_found id Hsome) as (sx & sy & Hseed & Hsx & Hsy & Hon).
  assert (trace id = Some (poly (snd (walk id sx sy (budget id) (start id sx sy)))))
    as Htrace by (apply trace_found; [done | lia]).
  destruct (trace_nonempty id _ Hwf Htrace) as (sx' & sy' & rest & Hseed' & Hring).
  rewrite Hseed in Hseed'. injection Hseed' as <- <-.
  exists sx, sy, rest. repeat split; try done; try lia.
  - intros x y Hx Hy Hbefore.
    apply (scan_rows_first id (Z.to_nat (height id)) 0 sx sy); try done; lia.
  - unfold exportPolygon. by rewrite Htrace, Hring.
Qed.

Lemma seed_first_in_scan_witness :
  wf_image block_grid /\
  exists rest, exportPolygon (Some block_grid) = [Download "mask.geojson" [(1, 1) :: rest]].
Proof.
  assert (wf_image block_grid) as Hwf by (repeat split; reflexivity).
  assert (exists x y, 0 <= x < width block_grid /\ 0 <= y < height block_grid /\
                      isOn block_grid x y = true) as Hsome.
  { exists 2, 2. repeat split; simpl; lia || reflexivity. }
  split; [exact Hwf |].
  destruct (seed_first_in_scan block_grid Hwf Hsome)
    as (sx & sy & rest & Hseed & _ & _ & _ & _ & Hexp).
  vm_compute in Hseed. injection Hseed as <- <-.
  exists rest. exact Hexp.
Defined.

(** *** The polygon is a path *)

Lemma chain_snoc (l : list (Z * Z)) (q : Z * Z) :
  chain l -> (forall p, last l = Some p -> near p q) -> chain (l ++ [q]).
Proof.
  induction l as [| a [| b l] IH]; intros Hc Hlast.
  - done.
  - simpl. split; [| done]. by apply Hlast.
  - destruct Hc as [Hab Hc]. change ((a :: b :: l) ++ [q]) with (a :: (b :: l) ++ [q]).
    change (chain (a :: (b :: l) ++ [q])) with (near a b /\ chain ((b :: l) ++ [q])).
    split; [done |]. apply IH; [done |]. intros p Hp. apply Hlast. done.
Qed.

Lemma chain_lookup (l : list (Z * Z)) (i : nat) (p q : Z * Z) :
  chain l -> l !! i = Some p -> l !! S i = Some q -> near p q.
Proof.
  revert i. induction l as [| a [| b l] IH]; intros i Hc Hp Hq; try done.
  destruct Hc as [Hab Hc]. destruct i as [| i].
  - simpl in Hp, Hq. by injection Hp as <-; injection Hq as <-.
  - apply (IH i); done.
Qed.

Lemma step_near id w : near (wx w, wy w) (wx (step id w), wy (step id w)).
Proof.
  unfold near, step, move. cbn [fst snd].
  repeat (case_match; cbn [wx wy]; simplify_eq); lia.
Qed.

(** X3: consecutive points of a polygon are the same cell or cells that share
    an edge: the ring is a path of unit steps, never a jump. *)
Theorem polygon_is_path (id : ImageData) (ring : list (Z * Z)) :
  trace id = Some ring ->
  chain ring /\
  forall i p q, ring !! i = Some p -> ring !! S i = Some q ->
    Z.abs (fst q - fst p) + Z.abs (snd q - snd p) <= 1.
Proof.
  intros Htrace.
  assert (chain ring) as Hchain.
  { unfold trace in Htrace. destruct (find_seed id) as [sx sy].
    destruct (sx =? -1); [done |]. injection Htrace as <-.
    destruct (walk id sx sy (budget id) (start id sx sy)) as [k r] eqn:Hwalk.
    apply walk_spec in Hwalk as (_ & -> & _). cbn [snd].
    assert (forall j, let w := Nat.iter j (body id) (start id sx sy) in
              chain (poly w) /\
              forall p, last (poly w) = Some p -> near p (wx w, wy w)) as Hinv.
    { induction j as [| j [IHc IHl]].
      - split; [done |]. intros p Hp. done.
      - cbv zeta in *.
        change (Nat.iter (S j) (body id) (start id sx sy))
          with (body id (Nat.iter j (body id) (start id sx sy))).
        set (w := Nat.iter j (body id) (start id sx sy)) in *.
        rewrite poly_body. split.
        + by apply chain_snoc.
        + intros p. rewrite last_snoc. intros [= <-].
          unfold body. apply (step_near id (mark id w)). }
    apply (Hinv k). }
  split; [done |]. intros i p q Hp Hq. apply (chain_lookup ring i p q); done.
Qed.

Lemma polygon_is_path_witness :
  trace block_grid = Some block_ring /\ chain block_ring.
Proof.
  assert (trace block_grid = Some block_ring) as Htrace by (vm_compute; reflexivity).
  split; [exact Htrace |].
  exact (proj1 (polygon_is_path block_grid block_ring Htrace)).
Defined.

(** *** Grids whose side columns are clear *)

Lemma step_in_grid id w :
  wf_image id ->
  (forall y, 0 <= y < height id ->
     isOn id 0 y = false /\ isOn id (width id - 1) y = false) ->
  0 <= wx w < width id -> 0 <= wy w < height id -> isOn id (wx w) (wy w) = true ->
  0 <= wx (step id w) < width id /\ 0 <= wy (step id w) < height id.
Proof.
  intros Hwf Hclear Hx Hy Hon.
  pose proof (step_occupied id w Hon) as Hon'.
  pose proof (isOn_true_index id _ _ Hwf Hon') as Hidx.
  pose proof (step_near id w) as Hnear. unfold near in Hnear. cbn [fst snd] in Hnear.
  destruct (Hclear (wy w) Hy) as [H0 HW].
  assert (wx w <> 0) as Hne0 by (intros Heq; rewrite Heq in Hon; congruence).
  assert (wx w <> width id - 1) as HneW by (intros Heq; rewrite Heq in Hon; congruence).
  assert (0 <= wx (step id w) < width id) as Hx' by lia.
  split; [done |]. destruct Hwf as (HWpos & HHpos & _). nia.
Qed.

(** X4: when the first and the last column of the grid hold no occupied pixel,
    every point of the polygon is an occupied pixel of the grid: its
    column is in [[0, W)] and its row in [[0, H)]. *)
Theorem trace_in_grid_when_side_columns_clear (id : ImageData) (ring : list (Z * Z)) :
  wf_image id ->
  (forall y, 0 <= y < height id ->
     isOn id 0 y = false /\ isOn id (width id - 1) y = false) ->
  trace id = Some ring ->
  forall x y, (x, y) ∈ ring ->
    0 <= x < width id /\ 0 <= y < height id /\ isOn id x y = true.
Proof.
  intros Hwf Hclear Htrace.
  unfold trace in Htrace. destruct (find_seed id) as [sx sy] eqn:Hseed.
  destruct (Z.eqb_spec sx (-1)) as [| Hsx]; [done |]. injection Htrace as <-.
  apply find_seed_spec in Hseed as [(-> & _) | (Hx0 & Hy0 & Hs)]; [done |].
  destruct (walk id sx sy (budget id) (start id sx sy)) as [k r] eqn:Hwalk.
  apply walk_spec in Hwalk as (_ & -> & _). cbn [snd].
  assert (forall j, let w := Nat.iter j (body id) (start id sx sy) in
            (0 <= wx w < width id /\ 0 <= wy w < height id /\
             isOn id (wx w) (wy w) = true) /\
            forall x y, (x, y) ∈ poly w ->
              0 <= x < width id /\ 0 <= y < height id /\ isOn id x y = true) as Hinv.
  { induction j as [| j [(IHx & IHy & IHon) IHpoly]].
    - split; [done |]. intros x y Hin. by apply elem_of_nil in Hin.
    - cbv zeta in *.
      change (Nat.iter (S j) (body id) (start id sx sy))
        with (body id (Nat.iter j (body id) (start id sx sy))).
      set (w := Nat.iter j (body id) (start id sx sy)) in *. split.
      + unfold body.
        destruct (step_in_grid id (mark id w) Hwf Hclear) as [Hx' Hy']; try done.
        split; [done |]. split; [done |]. by apply step_occupied.
      + intros x y. rewrite poly_body, elem_of_app, list_elem_of_singleton.
        intros [Hin | [= -> ->]]; [by apply IHpoly | done]. }
  intros x y. apply (Hinv k).
Qed.

Lemma trace_in_grid_witness :
  wf_image block_grid /\
  exists ring, trace block_grid = Some ring /\
    forall x y, (x, y) ∈ ring -> 0 <= x < 4 /\ 0 <= y < 4.
Proof.
  assert (wf_image block_grid) as Hwf by (repeat split; reflexivity).
  assert (forall y, 0 <= y < height block_grid ->
            isOn block_grid 0 y = false /\ isOn block_grid (width block_grid - 1) y = false)
    as Hclear.
  { intros y Hy. destruct (range4 y Hy) as [-> | [-> | [-> | ->]]]; split; reflexivity. }
  assert (trace block_grid = Some block_ring) as Htrace by (vm_compute; reflexivity).
  split; [exact Hwf |].
  exists block_ring. split; [exact Htrace |].
  intros x y Hin.
  destruct (trace_in_grid_when_side_columns_clear block_grid _ Hwf Hclear Htrace x y Hin)
    as (Hx & Hy & _).
  split; [exact Hx | exact Hy].
Defined.

(** The points of a polygon are cells read as occupied, at the concrete
    4 x 4 grid with the centre block. *)
Lemma trace_points_occupied_witness :
  wf_image block_grid /\
  exists ring, trace block_grid = Some ring /\ (2, 2) ∈ ring /\ isOn block_grid 2 2 = true.
Proof.
  assert (wf_image block_grid) as Hwf by (repeat split; reflexivity).
  assert (trace block_grid = Some block_ring) as Htrace by (vm_compute; reflexivity).
  split; [exact Hwf |].
  exists block_ring. split; [exact Htrace |].
  assert ((2, 2) ∈ block_ring) as Hin.
  { apply list_elem_of_In. simpl. tauto. }
  split; [exact Hin |].
  exact (proj1 (trace_points_occupied block_grid block_ring Hwf Htrace 2 2 Hin)).
Defined.

(** *** An isolated pixel *)

Section Isolated.
Variable id : ImageData.
Variables px py : Z.
Hypothesis Hwf : wf_image id.
Hypothesis Hpx : 0 <= px < width id.
Hypothesis Hpy : 0 <= py < height id.
Hypothesis Hon : isOn id px py = true.
Hypothesis Honly :
  forall x y, 0 <= x < width id -> 0 <= y < height id ->
    isOn id x y = true -> x = px /\ y = py.

(** No cell other than the pixel itself is read as occupied, also through a
    column outside the grid. *)
Lemma isolated_off x y :
  y * width id + x <> py * width id + px -> isOn id x y = false.
Proof.
  intros Hne. destruct (isOn id x y) eqn:Hxy; [| done]. exfalso.
  pose proof (isOn_true_index id x y Hwf Hxy) as Hidx.
  assert (0 < width id) as HW by apply Hwf.
  rewrite isOn_alias in Hxy by done.
  set (L := y * width id + x) in *.
  destruct (Honly (L mod width id) (L / width id)) as [Hx Hy]; try done.
  - apply Z.mod_pos_bound. lia.
  - split; [apply Z.div_pos; lia | apply Z.div_lt_upper_bound; lia].
  - pose proof (Z.div_mod L (width id) ltac:(lia)) as Hdm.
    rewrite Hx, Hy in Hdm. lia.
Qed.

Lemma isolated_probe d : probe id d px py = false.
Proof.
  assert (0 < width id) as HW by apply Hwf.
  unfold probe. repeat case_match; apply isolated_off; lia.
Qed.

Lemma isolated_body w :
  wx w = px -> wy w = py -> wx (body id w) = px /\ wy (body id w) = py.
Proof.
  intros Hx Hy. unfold body, step, mark. cbn [wx wy wdir].
  rewrite Hx, Hy, !isolated_probe. done.
Qed.

Lemma isolated_iter j :
  let w := Nat.iter j (body id) (start id px py) in
  wx w = px /\ wy w = py /\ poly w = replicate j (px, py).
Proof.
  induction j as [| j (IHx & IHy & IHp)]; [done |].
  cbv zeta in *.
  change (Nat.iter (S j) (body id) (start id px py))
    with (body id (Nat.iter j (body id) (start id px py))).
  set (w := Nat.iter j (body id) (start id px py)) in *.
  destruct (isolated_body w IHx IHy) as [Hx Hy].
  split; [done |]. split; [done |].
  rewrite poly_body, IHp, IHx, IHy.
  change [(px, py)] with (replicate 1 (px, py)).
  rewrite <- replicate_add. f_equal. lia.
Qed.

(** X5: on a grid with a single occupied pixel the walk turns on the spot: the
    polygon is that pixel, repeated 11 times, or [4 * W * H] times when the
    budget is smaller than that. *)
Theorem isolated_pixel_polygon :
  trace id = Some (replicate (Nat.min 11 (budget id)) (px, py)).
Proof.
  assert (exists x y, 0 <= x < width id /\ 0 <= y < height id /\ isOn id x y = true)
    as Hsome by (exists px, py; done).
  destruct (find_seed_found id Hsome) as (sx & sy & Hseed & Hsx & Hsy & Hs).
  destruct (Honly sx sy Hsx Hsy Hs) as [-> ->].
  rewrite (trace_found id px py Hseed) by lia.
  destruct (walk id px py (budget id) (start id px py)) as [k r] eqn:Hwalk.
  apply walk_spec in Hwalk as (Hle & -> & Hbefore & Hearly). cbn [snd].
  destruct (isolated_iter k) as (_ & _ & ->). do 2 f_equal.
  assert (forall j, stop px py (Nat.iter j (body id) (start id px py)) = true <->
                    (11 <= j)%nat) as Hstop.
  { intros j. rewrite stop_true. destruct (isolated_iter j) as (-> & -> & ->).
    rewrite length_replicate. tauto. }
  assert (k <= 11)%nat as Hk11.
  { destruct (Nat.le_gt_cases k 11) as [? | Hgt]; [done |].
    assert (stop px py (Nat.iter 11 (body id) (start id px py)) = false) as Hf
      by (apply Hbefore; lia).
    assert (stop px py (Nat.iter 11 (body id) (start id px py)) = true) as Ht
      by (apply Hstop; lia).
    congruence. }
  destruct (Nat.lt_ge_cases k (budget id)) as [Hlt | Hge]; [| lia].
  apply Hearly, Hstop in Hlt. lia.
Qed.

End Isolated.

Lemma isolated_pixel_witness :
  wf_image dot_grid /\
  trace dot_grid = Some (replicate 11 (1, 1)).
Proof.
  assert (wf_image dot_grid) as Hwf by (repeat split; reflexivity).
  assert (0 <= 1 < width dot_grid) as Hx by (simpl; lia).
  assert (0 <= 1 < height dot_grid) as Hy by (simpl; lia).
  assert (isOn dot_grid 1 1 = true) as Hon by reflexivity.
  assert (forall x y, 0 <= x < width dot_grid -> 0 <= y < height dot_grid ->
            isOn dot_grid x y = true -> x = 1 /\ y = 1) as Honly.
  { intros x y Hx' Hy'.
    destruct (range3 x Hx') as [-> | [-> | ->]];
      destruct (range3 y Hy') as [-> | [-> | ->]];
      vm_compute; intros; (done || (split; reflexivity)). }
  split; [exact Hwf |].
  exact (isolated_pixel_polygon dot_grid 1 1 Hwf Hx Hy Hon Honly).
Defined.

End TracerExtras.

(** ** Further properties of the overlay and the exported image *)

Module OverlayExtras.
Import TypedArray TypedArrayFacts PixelFacts Overlay OverlayFacts Path.
Import Tracer TracerFacts.

(** The alpha byte of a pixel decides whether [isOn] reads it as occupied. *)
Lemma isOn_alpha id x y a :
  get (data id) ((y * width id + x) * 4 + 3) = Some a ->
  isOn id x y = (0 <? a).
Proof. intros Ha. unfold isOn. by rewrite Ha. Qed.

(** What [exportPNG] makes of any overlay. *)
Lemma exportPNG_spec (overlay : ImageData) :
  wf_image overlay ->
  let exported := exportPNG overlay in
  wf_image exported /\
  width exported = width overlay /\ height exported = height overlay /\
  forall x y, 0 <= x < width overlay -> 0 <= y < height overlay ->
    rgba exported x y =
      [Some 255; Some 255; Some 255; Some (if isOn overlay x y then 255 else 0)].
Proof.
  intros (HW & HH & Hlen) exported.
  set (W := width overlay) in *. set (H := height overlay) in *.
  assert (0 <= W * H) as HWH by nia.
  destruct (linear_loop_spec (fun _ => 255) (fun _ => 255) (fun _ => 255)
              (fun k => if gt0 (get (data overlay) (4 * k + 3)) then 255 else 0)
              (W * H) (data (new_ImageData W H)))
    as [Hel Hexp]; [done | rewrite length_new_ImageData; lia |].
  assert (data exported =
          for_loop (Z.to_nat (W * H)) 0
            (fun k d => put (put (put (put d (4 * k + 0) 255) (4 * k + 1) 255)
                                 (4 * k + 2) 255)
                            (4 * k + 3)
                            (if gt0 (get (data overlay) (4 * k + 3)) then 255 else 0))
            (data (new_ImageData W H))) as Hed.
  { unfold exported, exportPNG. cbn [data].
    rewrite (quads_exact (W * H)) by lia. done. }
  rewrite <- Hed in Hel, Hexp.
  split; [repeat split; try done; change (width exported) with W;
          change (height exported) with H; lia |].
  split; [done |]. split; [done |].
  intros x y Hx Hy. unfold rgba. change (width exported) with W.
  pose proof (pixel_index_bound W H x y Hx Hy) as Hb.
  destruct (Hexp (y * W + x) Hb) as (H0 & H1 & H2 & H3).
  replace ((y * W + x) * 4) with (4 * (y * W + x)) by lia.
  rewrite H0, H1, H2, H3. do 4 f_equal.
  replace (4 * (y * W + x) + 3) with ((y * W + x) * 4 + 3) by lia. done.
Qed.

Lemma rgba_alpha id x y r g b a :
  rgba id x y = [r; g; b; a] -> get (data id) ((y * width id + x) * 4 + 3) = a.
Proof. unfold rgba. by intros [= _ _ _ <-]. Qed.

(** X6: [exportPNG] keeps the occupancy of the canvas it reads, at every
    coordinate [isOn] can be asked about; so the polygon traced on the
    exported image is the polygon traced on the overlay. *)
Theorem exportPNG_keeps_occupancy (overlay : ImageData) :
  wf_image overlay ->
  (forall x y, isOn (exportPNG overlay) x y = isOn overlay x y) /\
  trace (exportPNG overlay) = trace overlay /\
  exportPolygon (Some (exportPNG overlay)) = exportPolygon (Some overlay).
Proof.
  intros Hwf.
  destruct (exportPNG_spec overlay Hwf) as (Hwf' & HW & HH & Hpix).
  assert (forall x y, isOn (exportPNG overlay) x y = isOn overlay x y) as Hon.
  { apply isOn_ext; try done.
    intros x y Hx Hy. rewrite HW in Hx. rewrite HH in Hy.
    rewrite (isOn_alpha (exportPNG overlay) x y (if isOn overlay x y then 255 else 0)).
    - by destruct (isOn overlay x y).
    - apply (rgba_alpha _ _ _ _ _ _ _ (Hpix x y Hx Hy)). }
  assert (trace (exportPNG overlay) = trace overlay) as Htrace
    by (by apply trace_ext).
  split; [done |]. split; [done |].
  unfold exportPolygon. by rewrite Htrace.
Qed.

Lemma exportPNG_keeps_occupancy_witness :
  wf_image Examples.block_grid /\
  trace (exportPNG Examples.block_grid) = trace Examples.block_grid.
Proof.
  assert (wf_image Examples.block_grid) as Hwf by (repeat split; reflexivity).
  split; [exact Hwf |].
  exact (proj1 (proj2 (exportPNG_keeps_occupancy Examples.block_grid Hwf))).
Defined.

(** Painting one marker: the pixels of its disc become opaque, the alpha of
    every other pixel is left as it was. *)
Lemma fill_marker_spec (canvas : ImageData) (p : PromptPoint) :
  wf_image canvas ->
  let painted := fill_marker canvas p in
  wf_image painted /\
  width painted = width canvas /\ height painted = height canvas /\
  forall x y, 0 <= x < width canvas -> 0 <= y < height canvas ->
    get (data painted) ((y * width canvas + x) * 4 + 3) =
      if in_disc p x y then Some 255
      else get (data canvas) ((y * width canvas + x) * 4 + 3).
Proof.
  intros (HW & HH & Hlen) painted.
  set (W := width canvas) in *. set (H := height canvas) in *.
  set (d0 := data canvas) in *.
  pose (R := fun (k : Z) (d : list Z) =>
    length d = length d0 /\
    (forall x y, 0 <= x < W -> 0 <= y < H -> y * W + x < k ->
       get d ((y * W + x) * 4 + 3) =
         if in_disc p x y then Some 255 else get d0 ((y * W + x) * 4 + 3)) /\
    (forall j, 4 * k <= j -> get d j = get d0 j)).
  assert (R (H * W) (data painted)) as (Hl & Hpix & _).
  { unfold painted, fill_marker. cbn [data]. fold W H d0.
    apply (for_loop_inv0 (fun y d => R (y * W) d)); [lia | |].
    - split; [done |]. split; [| done]. intros x y Hx Hy Hlt. nia.
    - intros y d Hy HQ. cbv beta.
      replace ((y + 1) * W) with (y * W + W) by lia.
      apply (for_loop_inv0 (fun x d => R (y * W + x) d)); [lia | |].
      + by replace (y * W + 0) with (y * W) by lia.
      + intros x t Hx (Hlt & Hdone & Hrest). unfold R, fill_pixel.
        pose proof (pixel_index_bound W H x y Hx Hy) as Hb.
        destruct (in_disc p x y) eqn:Hdisc.
        * destruct (put4_spec t ((y * W + x) * 4) 0 209 255 255)
            as (Hlen' & _ & _ & _ & H3 & Hframe); [lia | lia |].
          split; [lia |]. split.
          -- intros x' y' Hx' Hy' Hk.
             destruct (Z.eq_dec (y' * W + x') (y * W + x)) as [Heq | Hne].
             ++ destruct (pixel_index_inj W x y x' y') as [-> ->]; try done.
                by rewrite Hdisc.
             ++ rewrite Hframe by lia. apply Hdone; try done. lia.
          -- intros j Hj. rewrite Hframe by lia. apply Hrest. lia.
        * split; [done |]. split.
          -- intros x' y' Hx' Hy' Hk.
             destruct (Z.eq_dec (y' * W + x') (y * W + x)) as [Heq | Hne].
             ++ destruct (pixel_index_inj W x y x' y') as [-> ->]; try done.
                rewrite Hdisc. apply Hrest. lia.
             ++ apply Hdone; try done. lia.
          -- intros j Hj. apply Hrest. lia. }
  split; [repeat split; try done; change (width painted) with W;
          change (height painted) with H; lia |].
  split; [done |]. split; [done |].
  intros x y Hx Hy. apply Hpix; try done.
  pose proof (pixel_index_bound W H x y Hx Hy). lia.
Qed.

(** Painting the markers of a list of points. *)
Lemma markers_spec (pts : list PromptPoint) (canvas : ImageData) :
  wf_image canvas ->
  let painted := foldl fill_marker canvas pts in
  wf_image painted /\
  width painted = width canvas /\ height painted = height canvas /\
  forall x y, 0 <= x < width canvas -> 0 <= y < height canvas ->
    get (data painted) ((y * width canvas + x) * 4 + 3) =
      if marked pts x y then Some 255
      else get (data canvas) ((y * width canvas + x) * 4 + 3).
Proof.
  revert canvas. induction pts as [| p pts IH]; intros canvas Hwf; [done |].
  cbn [foldl].
  destruct (fill_marker_spec canvas p Hwf) as (Hwf1 & HW1 & HH1 & Hpix1).
  destruct (IH (fill_marker canvas p) Hwf1) as (Hwf2 & HW2 & HH2 & Hpix2).
  cbv zeta. split; [done |]. split; [congruence |]. split; [congruence |].
  intros x y Hx Hy. rewrite <- HW1.
  rewrite Hpix2 by (rewrite ?HW1, ?HH1; done).
  unfold marked. cbn [existsb]. fold (marked pts x y).
  rewrite HW1, Hpix1 by done.
  destruct (in_disc p x y), (marked pts x y); done.
Qed.

(** The overlay [draw] leaves for a mask as large as the image carries the
    alpha bytes of the mask. *)
Lemma tinted_mask_spec (msk : ImageData) :
  wf_image msk ->
  let canvas := putImageData (new_ImageData (width msk) (height msk)) (tint msk) in
  wf_image canvas /\
  width canvas = width msk /\ height canvas = height msk /\
  forall x y, 0 <= x < width msk -> 0 <= y < height msk ->
    get (data canvas) ((y * width msk + x) * 4 + 3) =
    get (data msk) ((y * width msk + x) * 4 + 3).
Proof.
  intros (HW & HH & Hlen) canvas.
  set (W := width msk) in *. set (H := height msk) in *.
  assert (0 <= W * H) as HWH by nia.
  destruct (linear_loop_spec (fun _ => 0) (fun _ => 255) (fun _ => 0)
              (fun k => default 0 (get (data msk) (4 * k + 3)))
              (W * H) (data (new_ImageData W H)))
    as [Htl Htint]; [done | rewrite length_new_ImageData; lia |].
  assert (data (tint msk) =
          for_loop (Z.to_nat (W * H)) 0
            (fun k d => put (put (put (put d (4 * k + 0) 0) (4 * k + 1) 255)
                                 (4 * k + 2) 0)
                            (4 * k + 3) (default 0 (get (data msk) (4 * k + 3))))
            (data (new_ImageData W H))) as Htd.
  { unfold tint. cbn [data]. rewrite (quads_exact (W * H)) by lia. done. }
  rewrite <- Htd in Htl, Htint.
  destruct (grid_loop_spec
              (fun x y => default 0 (get (data (tint msk)) ((y * W + x) * 4 + 0)))
              (fun x y => default 0 (get (data (tint msk)) ((y * W + x) * 4 + 1)))
              (fun x y => default 0 (get (data (tint msk)) ((y * W + x) * 4 + 2)))
              (fun x y => default 0 (get (data (tint msk)) ((y * W + x) * 4 + 3)))
              W H (data (new_ImageData W H)))
    as [Hol Hov]; [lia | lia | rewrite length_new_ImageData; lia |].
  assert (data canvas =
          for_loop (Z.to_nat H) 0
            (fun y d => for_loop (Z.to_nat W) 0
               (fun x d =>
                  put (put (put (put d ((y * W + x) * 4 + 0)
                       (default 0 (get (data (tint msk)) ((y * W + x) * 4 + 0))))
                       ((y * W + x) * 4 + 1)
                       (default 0 (get (data (tint msk)) ((y * W + x) * 4 + 1))))
                       ((y * W + x) * 4 + 2)
                       (default 0 (get (data (tint msk)) ((y * W + x) * 4 + 2))))
                       ((y * W + x) * 4 + 3)
                       (default 0 (get (data (tint msk)) ((y * W + x) * 4 + 3)))) d)
            (data (new_ImageData W H))) as Hod.
  { unfold canvas, putImageData. cbn [data width height new_ImageData tint].
    fold W H. rewrite !Z.min_id. done. }
  rewrite <- Hod in Hol, Hov.
  split; [repeat split; try done; change (width canvas) with W;
          change (height canvas) with H; lia |].
  split; [done |]. split; [done |].
  intros x y Hx Hy. destruct (Hov x y Hx Hy) as (_ & _ & _ & ->).
  pose proof (pixel_index_bound W H x y Hx Hy) as Hb.
  destruct (Htint (y * W + x) Hb) as (_ & _ & _ & Ht3).
  replace ((y * W + x) * 4 + 3) with (4 * (y * W + x) + 3) by lia.
  rewrite Ht3.
  destruct (get (data msk) (4 * (y * W + x) + 3)) as [v |] eqn:Hget; [done |].
  exfalso. unfold get in Hget. destruct (Z.ltb_spec (4 * (y * W + x) + 3) 0); [lia |].
  apply lookup_ge_None in Hget. lia.
Qed.

Lemma exportPNG_without_points_witness :
  wf_image Examples.dot_grid /\
  rgba (exportPNG (draw 3 3 (Some Examples.dot_grid) [])) 1 1 =
    [Some 255; Some 255; Some 255; Some 255] /\
  rgba (exportPNG (draw 3 3 (Some Examples.dot_grid) [])) 2 1 =
    [Some 255; Some 255; Some 255; Some 0].
Proof.
  assert (wf_image Examples.dot_grid) as Hwf by (repeat split; reflexivity).
  assert (0 <= 1 < 3) as H1 by lia. assert (0 <= 2 < 3) as H2 by lia.
  split; [exact Hwf |]. split.
  - exact (proj2 (proj2 (exportPNG_without_points Examples.dot_grid Hwf)) 1 1 H1 H1).
  - exact (proj2 (proj2 (exportPNG_without_points Examples.dot_grid Hwf)) 2 1 H2 H1).
Defined.

End OverlayExtras.

(** ** From the raw mask to the exported files *)

Module PipelineExtras.
Import TypedArray TypedArrayFacts PixelFacts Overlay OverlayFacts OverlayExtras Path.
Import Run RunFacts Tracer TracerFacts TracerClaims.

(** The alpha bytes of the overlay after [draw]. *)
Lemma draw_alpha (msk : ImageData) (pts : list PromptPoint) :
  wf_image msk ->
  let overlay := draw (width msk) (height msk) (Some msk) pts in
  wf_image overlay /\
  width overlay = width msk /\ height overlay = height msk /\
  forall x y, 0 <= x < width msk -> 0 <= y < height msk ->
    get (data overlay) ((y * width msk + x) * 4 + 3) =
      if marked pts x y then Some 255
      else get (data msk) ((y * width msk + x) * 4 + 3).
Proof.
  intros Hwf overlay.
  destruct (tinted_mask_spec msk Hwf) as (Hwf1 & HW1 & HH1 & Hpix1).
  destruct (markers_spec pts _ Hwf1) as (Hwf2 & HW2 & HH2 & Hpix2).
  split; [done |]. split; [unfold overlay, draw; congruence |].
  split; [unfold overlay, draw; congruence |].
  intros x y Hx Hy. unfold overlay, draw. rewrite <- HW1 at 1.
  rewrite Hpix2 by (rewrite ?HW1, ?HH1; done).
  rewrite HW1, Hpix1 by done. done.
Qed.

Lemma draw_isOn (msk : ImageData) (pts : list PromptPoint) x y :
  wf_image msk -> 0 <= x < width msk -> 0 <= y < height msk ->
  isOn (draw (width msk) (height msk) (Some msk) pts) x y =
  marked pts x y || isOn msk x y.
Proof.
  intros Hwf Hx Hy.
  destruct (draw_alpha msk pts Hwf) as (_ & HW & _ & Hpix).
  unfold isOn at 1. rewrite HW, Hpix by done.
  by destruct (marked pts x y).
Qed.

(** The pixels of the image [exportPNG] writes after [draw]. *)
Lemma export_draw_pixel (msk : ImageData) (pts : list PromptPoint) (x y : Z) :
  wf_image msk -> 0 <= x < width msk -> 0 <= y < height msk ->
  rgba (exportPNG (draw (width msk) (height msk) (Some msk) pts)) x y =
    [Some 255; Some 255; Some 255;
     Some (if marked pts x y || isOn msk x y then 255 else 0)].
Proof.
  intros Hwf Hx Hy.
  destruct (draw_alpha msk pts Hwf) as (Hwf' & HW & HH & _).
  destruct (exportPNG_spec _ Hwf') as (_ & _ & _ & Hpix).
  rewrite Hpix by (rewrite ?HW, ?HH; done).
  by rewrite draw_isOn.
Qed.

(** X8: markers never hide the mask: a pixel that is occupied in the mask, or
    that lies in the disc of a prompt point's marker, is opaque white in the
    image [exportPNG] writes, whatever the prompt points are. *)
Theorem export_opaque_under_mask_or_marker
    (msk : ImageData) (pts : list PromptPoint) (x y : Z) :
  wf_image msk -> 0 <= x < width msk -> 0 <= y < height msk ->
  isOn msk x y || marked pts x y = true ->
  rgba (exportPNG (draw (width msk) (height msk) (Some msk) pts)) x y =
    [Some 255; Some 255; Some 255; Some 255].
Proof.
  intros Hwf Hx Hy Hon.
  rewrite export_draw_pixel by done. by rewrite orb_comm, Hon.
Qed.

Lemma export_opaque_witness :
  rgba (exportPNG (draw 3 3 (Some Examples.dot_grid) [mkPoint 0 0 1])) 1 1 =
    [Some 255; Some 255; Some 255; Some 255].
Proof.
  assert (wf_image Examples.dot_grid) as Hwf by (repeat split; reflexivity).
  assert (0 <= 1 < width Examples.dot_grid) as Hx by (simpl; lia).
  assert (0 <= 1 < height Examples.dot_grid) as Hy by (simpl; lia).
  exact (export_opaque_under_mask_or_marker Examples.dot_grid [mkPoint 0 0 1] 1 1
           Hwf Hx Hy eq_refl).
Defined.

Lemma in_disc_centre (p : PromptPoint) : in_disc p (px p) (py p) = true.
Proof.
  unfold in_disc. apply Z.leb_le.
  replace (2 * px p + 1 - 2 * px p) with 1 by lia.
  replace (2 * py p + 1 - 2 * py p) with 1 by lia. done.
Qed.

(** X9: with a prompt point inside the image on the overlay, [exportPolygon]
    never reports [No mask to export]: it downloads a polygon, also when
    the mask itself has no occupied pixel; the polygon starts at or before
    the pixel of the point in scan order. *)
Theorem point_in_image_gives_download
    (msk : ImageData) (pts : list PromptPoint) (p : PromptPoint) :
  wf_image msk -> p ∈ pts ->
  0 <= px p < width msk -> 0 <= py p < height msk ->
  exists sx sy rest,
    exportPolygon (Some (draw (width msk) (height msk) (Some msk) pts)) =
      [Download "mask.geojson" [(sx, sy) :: rest]] /\
    ~ scanned_before (px p) (py p) sx sy.
Proof.
  intros Hwf Hin Hx Hy.
  set (overlay := draw (width msk) (height msk) (Some msk) pts).
  destruct (draw_alpha msk pts Hwf) as (Hwf' & HW & HH & _). fold overlay in Hwf', HW, HH.
  assert (isOn overlay (px p) (py p) = true) as Hon.
  { unfold overlay. rewrite draw_isOn by done.
    apply orb_true_iff. left. unfold marked. apply existsb_exists.
    exists p. split; [by apply list_elem_of_In | apply in_disc_centre]. }
  destruct (find_seed_found overlay) as (sx & sy & Hseed & Hsx & Hsy & Hs).
  { exists (px p), (py p). rewrite HW, HH. done. }
  pose proof (trace_found overlay sx sy Hseed (proj1 Hsx)) as Htrace.
  destruct (trace_nonempty overlay _ Hwf' Htrace) as (sx' & sy' & rest & Hseed' & Hring).
  rewrite Hseed in Hseed'. injection Hseed' as <- <-.
  exists sx, sy, rest. split.
  - unfold exportPolygon. rewrite Htrace, Hring. done.
  - intros Hbefore.
    assert (isOn overlay (px p) (py p) = false) as Hoff; [| congruence].
    unfold find_seed in Hseed.
    apply (TracerExtras.scan_rows_first overlay (Z.to_nat (height overlay)) 0 sx sy);
      try done; try lia.
Qed.

Lemma point_in_image_witness :
  exists sx sy rest,
    exportPolygon (Some (draw 12 12 (Some Examples.blank_mask) [Examples.middle_point])) =
      [Download "mask.geojson" [(sx, sy) :: rest]] /\
    ~ scanned_before 6 6 sx sy.
Proof.
  assert (wf_image Examples.blank_mask) as Hwf by (repeat split; reflexivity).
  assert (Examples.middle_point ∈ [Examples.middle_point]) as Hin
    by apply list_elem_of_here.
  assert (0 <= 6 < 12) as H6 by lia.
  exact (point_in_image_gives_download Examples.blank_mask [Examples.middle_point]
           Examples.middle_point Hwf Hin H6 H6).
Defined.

(** The mask [run] stores is well formed and occupied where the sample is
    positive. *)
Lemma upscale_wf (m : Tensor) (MH MW W H : Z) :
  0 < W -> 0 < H -> wf_image (upscale m MH MW W H).
Proof.
  intros HW HH. destruct (upscale_spec m MH MW W H) as [Hlen _]; [lia | lia |].
  repeat split; done.
Qed.

Lemma upscale_isOn (m : Tensor) (MH MW W H x y : Z) :
  0 <= x < W -> 0 <= y < H ->
  isOn (upscale m MH MW W H) x y =
  Num.gt_zero (sample (tdata m) MW (src_coord x W MW) (src_coord y H MH)).
Proof.
  intros Hx Hy. destruct (upscale_spec m MH MW W H) as [_ Hpix]; [lia | lia |].
  rewrite (isOn_alpha _ _ _ _ (rgba_alpha _ _ _ _ _ _ _ (Hpix x y Hx Hy))).
  rewrite alpha_of_cases. by destruct (Num.gt_zero _).
Qed.

Lemma no_seed_alert (id : ImageData) :
  (forall x y, 0 <= x < width id -> 0 <= y < height id -> isOn id x y = false) ->
  exportPolygon (Some id) = [Alert "No mask to export"].
Proof.
  intros Hoff. unfold exportPolygon, trace.
  destruct (find_seed id) as [sx sy] eqn:Hseed.
  apply find_seed_spec in Hseed as [(-> & _) | (Hx & Hy & Hon)]; [done |].
  rewrite Hoff in Hon by done. done.
Qed.

Lemma seed_download (id : ImageData) (x y : Z) :
  wf_image id -> 0 <= x < width id -> 0 <= y < height id -> isOn id x y = true ->
  exists sx sy rest,
    exportPolygon (Some id) = [Download "mask.geojson" [(sx, sy) :: rest]] /\
    0 <= sx < width id /\ 0 <= sy < height id /\ isOn id sx sy = true /\
    ~ scanned_before x y sx sy.
Proof.
  intros Hwf Hx Hy Hon.
  destruct (find_seed_found id) as (sx & sy & Hseed & Hsx & Hsy & Hs);
    [by exists x, y |].
  pose proof (trace_found id sx sy Hseed (proj1 Hsx)) as Htrace.
  destruct (trace_nonempty id _ Hwf Htrace) as (sx' & sy' & rest & Hseed' & Hring).
  rewrite Hseed in Hseed'. injection Hseed' as <- <-.
  exists sx, sy, rest. split; [unfold exportPolygon; by rewrite Htrace, Hring |].
  do 3 (split; [done |]). intros Hbefore.
  assert (isOn id x y = false) as Hoff; [| congruence].
  unfold find_seed in Hseed.
  apply (TracerExtras.scan_rows_first id (Z.to_nat (height id)) 0 sx sy);
    try done; try lia.
Qed.

(** The exports of an overlay drawn from a mask whose occupancy is [on]. *)
Lemma export_of_mask (msk : ImageData) (on : Z -> Z -> bool) :
  wf_image msk ->
  (forall x y, 0 <= x < width msk -> 0 <= y < height msk -> isOn msk x y = on x y) ->
  let W := width msk in
  let H := height msk in
  (forall pts x y, 0 <= x < W -> 0 <= y < H -> on x y = true ->
     rgba (exportPNG (draw W H (Some msk) pts)) x y =
       [Some 255; Some 255; Some 255; Some 255]) /\
  (forall x y, 0 <= x < W -> 0 <= y < H ->
     rgba (exportPNG (draw W H (Some msk) [])) x y =
       [Some 255; Some 255; Some 255; Some (if on x y then 255 else 0)]) /\
  ((forall x y, 0 <= x < W -> 0 <= y < H -> on x y = false) ->
     exportPolygon (Some (draw W H (Some msk) [])) = [Alert "No mask to export"]) /\
  (forall x y, 0 <= x < W -> 0 <= y < H -> on x y = true ->
     exists sx sy rest,
       exportPolygon (Some (draw W H (Some msk) [])) =
         [Download "mask.geojson" [(sx, sy) :: rest]] /\
       0 <= sx < W /\ 0 <= sy < H /\ on sx sy = true /\
       ~ scanned_before x y sx sy).
Proof.
  intros Hwf Hon W H.
  destruct (draw_alpha msk [] Hwf) as (Hwf' & HW' & HH' & _).
  fold W H in HW', HH', Hwf'.
  set (overlay := draw W H (Some msk) []) in *.
  assert (forall x y, 0 <= x < W -> 0 <= y < H -> isOn overlay x y = on x y) as Hov.
  { intros x y Hx Hy. unfold overlay, W, H. rewrite draw_isOn by done.
    cbn [marked existsb orb]. by apply Hon. }
  split.
  { intros pts x y Hx Hy Hxy. unfold W, H. rewrite export_draw_pixel by done.
    rewrite Hon, Hxy by done. by rewrite orb_true_r. }
  split.
  { intros x y Hx Hy. unfold overlay, W, H. rewrite export_draw_pixel by done.
    cbn [marked existsb orb]. by rewrite Hon. }
  split.
  { intros Hoff. apply no_seed_alert. intros x y Hx Hy.
    rewrite HW' in Hx. rewrite HH' in Hy. rewrite Hov by done. by apply Hoff. }
  intros x y Hx Hy Hxy.
  destruct (seed_download overlay x y) as (sx & sy & rest & Hexp & Hsx & Hsy & Hs & Hfirst);
    [done | by rewrite HW' | by rewrite HH' | by rewrite Hov |].
  rewrite HW' in Hsx. rewrite HH' in Hsy.
  exists sx, sy, rest. split; [done |]. do 2 (split; [done |]).
  split; [by rewrite <- Hov | done].
Qed.

(** X10: a successful [run] followed by [draw] and the exports, end to end. When
    the engine's output holds a mask [m] of shape [MH x MW] (after dropping
    the leading dimensions), [run] stores a mask and no error, and
    - whatever the prompt points, every pixel whose sample
      [m.data[srcY * MW + srcX]] is positive is opaque white in [mask.png];
    - without prompt points on the overlay, [mask.png] is opaque exactly on
      those pixels, and [exportPolygon] alerts when there is none and
      otherwise downloads a polygon that starts at the first of them in
      scan order. *)
Theorem run_then_export
    (engine : gmap string Tensor -> gmap string Tensor) (image : Tensor)
    (W H : Z) (st : State) (m : Tensor) (MH MW : Z) :
  0 < W -> 0 < H ->
  engine (feeds image (points st)) !! "masks" = Some m ->
  mask_shape (dims m) = Some (MH, MW) ->
  let on x y :=
    Num.gt_zero (sample (tdata m) MW (src_coord x W MW) (src_coord y H MH)) in
  exists maskImg,
    run engine image W H st =
      {| points := points st; mask := Some maskImg; error := None |} /\
    width maskImg = W /\ height maskImg = H /\
    (forall pts x y, 0 <= x < W -> 0 <= y < H -> on x y = true ->
       rgba (exportPNG (draw W H (Some maskImg) pts)) x y =
         [Some 255; Some 255; Some 255; Some 255]) /\
    (forall x y, 0 <= x < W -> 0 <= y < H ->
       rgba (exportPNG (draw W H (Some maskImg) [])) x y =
         [Some 255; Some 255; Some 255; Some (if on x y then 255 else 0)]) /\
    ((forall x y, 0 <= x < W -> 0 <= y < H -> on x y = false) ->
       exportPolygon (Some (draw W H (Some maskImg) [])) =
         [Alert "No mask to export"]) /\
    (forall x y, 0 <= x < W -> 0 <= y < H -> on x y = true ->
       exists sx sy rest,
         exportPolygon (Some (draw W H (Some maskImg) [])) =
           [Download "mask.geojson" [(sx, sy) :: rest]] /\
         0 <= sx < W /\ 0 <= sy < H /\ on sx sy = true /\
         ~ scanned_before x y sx sy).
Proof.
  intros HW HH Hout Hshape on.
  exists (upscale m MH MW W H). split.
  { unfold run, postprocess. by rewrite Hout, Hshape. }
  split; [done |]. split; [done |].
  apply (export_of_mask (upscale m MH MW W H) on (upscale_wf m MH MW W H HW HH)).
  intros x y Hx Hy. by apply upscale_isOn.
Qed.

Lemma run_then_export_witness :
  exists maskImg,
    run (fun _ => {[ "masks" := Examples.quadrants ]}) (mkTensor [] []) 4 4
        (mkState [] None None) =
      {| points := []; mask := Some maskImg; error := None |} /\
    rgba (exportPNG (draw 4 4 (Some maskImg) [])) 3 1 =
      [Some 255; Some 255; Some 255; Some 0] /\
    rgba (exportPNG (draw 4 4 (Some maskImg) [])) 1 0 =
      [Some 255; Some 255; Some 255; Some 255].
Proof.
  assert (0 < 4) as H4 by lia.
  assert (0 <= 3 < 4) as H3 by lia. assert (0 <= 1 < 4) as H1 by lia.
  assert (0 <= 0 < 4) as H0 by lia.
  assert (({[ "masks" := Examples.quadrants ]} : gmap string Tensor) !! "masks" =
          Some Examples.quadrants) as Hout by (vm_compute; reflexivity).
  destruct (run_then_export (fun _ => {[ "masks" := Examples.quadrants ]})
              (mkTensor [] []) 4 4 (mkState [] None None) Examples.quadrants 2 2
              H4 H4 Hout eq_refl)
    as (maskImg & Hrun & _ & _ & _ & Hpix & _).
  exists maskImg. split; [exact Hrun |]. split.
  - exact (Hpix 3 1 H3 H1).
  - exact (Hpix 1 0 H1 H0).
Defined.

End PipelineExtras.

(** ** The image tensor *)

Module TensorExtras.
Import TypedArray TypedArrayFacts PixelFacts Run.

(** The loops of [canvasToTensor] by linear pixel index: plane [c] of the
    array holds, at pixel [k], the normalised byte [4 * k + c] of the
    canvas. *)
Lemma tensor_linear (canvas : ImageData) :
  0 <= width canvas -> 0 <= height canvas ->
  let W := width canvas in
  let H := height canvas in
  Z.of_nat (length (canvasToTensor canvas)) = 3 * H * W /\
  forall c k, 0 <= c < 3 -> 0 <= k < H * W ->
    get (canvasToTensor canvas) (c * H * W + k) =
      Some (normalise c (get (data canvas) (k * 4 + c))).
Proof.
  intros HW HH W H. fold W in HW. fold H in HH.
  assert (0 <= H * W) as HN by nia.
  pose (R := fun (k : Z) (st : Z * list spec_float) =>
    fst st = k /\ Z.of_nat (length (snd st)) = 3 * H * W /\
    forall c k', 0 <= c < 3 -> 0 <= k' < k ->
      get (snd st) (c * H * W + k') =
        Some (normalise c (get (data canvas) (k' * 4 + c)))).
  assert (R (H * W)
            (for_loop (Z.to_nat H) 0
               (fun y st => for_loop (Z.to_nat W) 0 (tensor_pixel canvas H W y) st)
               (0, replicate (Z.to_nat (3 * H * W)) (S754_zero false))))
    as (_ & Hlen & Hpix).
  { apply (for_loop_inv0 (fun y st => R (y * W) st)); [lia | |].
    - split; [done |]. split; [cbn [snd]; rewrite length_replicate; lia |].
      intros c k' Hc Hk'. lia.
    - intros y st Hy HQ. cbv beta.
      replace ((y + 1) * W) with (y * W + W) by lia.
      apply (for_loop_inv0 (fun x st => R (y * W + x) st)); [lia | |].
      + by replace (y * W + 0) with (y * W) by lia.
      + intros x [i out] Hx (Hi & Hl & Hdone). cbn [fst snd] in Hi, Hl, Hdone.
        pose proof (pixel_index_bound W H x y Hx Hy) as Hb.
        unfold R, tensor_pixel. cbn [fst snd]. subst i.
        split; [lia |]. split; [by rewrite !length_put |].
        intros c k' Hc Hk'.
        destruct (Z.eq_dec k' (y * W + x)) as [-> | Hne].
        * assert (c = 0 \/ c = 1 \/ c = 2) as [-> | [-> | ->]] by lia.
          -- rewrite get_put_ne by lia. rewrite get_put_ne by lia.
             replace (0 * H * W + (y * W + x)) with (y * W + x + 0 * H * W) by lia.
             rewrite get_put_eq by lia. done.
          -- rewrite get_put_ne by lia.
             replace (1 * H * W + (y * W + x)) with (y * W + x + 1 * H * W) by lia.
             rewrite get_put_eq by (rewrite length_put; lia). done.
          -- replace (2 * H * W + (y * W + x)) with (y * W + x + 2 * H * W) by lia.
             rewrite get_put_eq by (rewrite !length_put; lia). done.
        * assert (c = 0 \/ c = 1 \/ c = 2) as Hc3 by lia.
          rewrite !get_put_ne by (destruct Hc3 as [-> | [-> | ->]]; lia).
          apply Hdone; [done | lia]. }
  split; [done |]. done.
Qed.

(** X11: [canvasToTensor] lays the image out plane by plane: the array has
    [3 * H * W] elements, and element [c * H * W + y * W + x] is the
    normalised colour byte [c] (0 red, 1 green, 2 blue) of pixel [(x, y)];
    the shape of the tensor is [[1, 3, H, W]]. *)
Theorem canvasToTensor_layout (canvas : ImageData) :
  0 <= width canvas -> 0 <= height canvas ->
  let W := width canvas in
  let H := height canvas in
  dims (image_tensor canvas) = [1; 3; H; W] /\
  Z.of_nat (length (tdata (image_tensor canvas))) = 3 * H * W /\
  forall c x y, 0 <= c < 3 -> 0 <= x < W -> 0 <= y < H ->
    get (tdata (image_tensor canvas)) (c * H * W + y * W + x) =
      Some (normalise c (get (data canvas) ((y * W + x) * 4 + c))).
Proof.
  intros HW HH W H.
  destruct (tensor_linear canvas HW HH) as [Hlen Hpix]. fold W H in Hlen, Hpix.
  split; [done |]. split; [done |].
  intros c x y Hc Hx Hy. cbn [image_tensor tdata].
  replace (c * H * W + y * W + x) with (c * H * W + (y * W + x)) by lia.
  apply Hpix; [done |]. pose proof (pixel_index_bound W H x y Hx Hy). lia.
Qed.

Lemma canvasToTensor_layout_witness :
  get (tdata (image_tensor Examples.dot_grid)) (2 * 3 * 3 + 1 * 3 + 1) =
    Some (normalise 2 (Some 0)).
Proof.
  assert (0 <= width Examples.dot_grid) as HW by (simpl; lia).
  assert (0 <= height Examples.dot_grid) as HH by (simpl; lia).
  assert (0 <= 2 < 3) as H2 by lia. assert (0 <= 1 < 3) as H1 by lia.
  exact (proj2 (proj2 (canvasToTensor_layout Examples.dot_grid HW HH)) 2 1 1 H2 H1 H1).
Defined.

(** X12: the alpha channel never reaches the tensor: two canvases of the same
    size whose pixels agree on red, green and blue give the same tensor. *)
Theorem tensor_ignores_alpha (a b : ImageData) :
  0 <= width a -> 0 <= height a ->
  width b = width a -> height b = height a ->
  (forall c x y, 0 <= c < 3 -> 0 <= x < width a -> 0 <= y < height a ->
     get (data a) ((y * width a + x) * 4 + c) =
     get (data b) ((y * width a + x) * 4 + c)) ->
  image_tensor a = image_tensor b.
Proof.
  intros HW HH HWb HHb Hrgb.
  destruct (tensor_linear a HW HH) as [Hla Hpa].
  destruct (tensor_linear b) as [Hlb Hpb]; [lia | lia |].
  rewrite HWb, HHb in Hlb, Hpb.
  set (W := width a) in *. set (H := height a) in *.
  unfold image_tensor. rewrite HWb, HHb. f_equal.
  apply list_eq. intros i.
  destruct (Z.lt_ge_cases (Z.of_nat i) (3 * H * W)) as [Hi | Hi].
  - assert (0 < H * W) as HN by lia.
    assert (0 < W) as HWpos by nia.
    pose proof (Z.div_mod (Z.of_nat i) (H * W) ltac:(lia)) as Hdm.
    pose proof (Z.mod_pos_bound (Z.of_nat i) (H * W) HN) as Hk.
    set (c := Z.of_nat i / (H * W)) in *. set (k := Z.of_nat i mod (H * W)) in *.
    assert (0 <= c < 3) as Hc.
    { split; [apply Z.div_pos; lia |]. apply Z.div_lt_upper_bound; lia. }
    pose proof (Z.div_mod k W ltac:(lia)) as Hdk.
    pose proof (Z.mod_pos_bound k W HWpos) as Hx.
    set (y := k / W) in *. set (x := k mod W) in *.
    assert (0 <= y < H) as Hy.
    { split; [apply Z.div_pos; lia |]. apply Z.div_lt_upper_bound; lia. }
    specialize (Hpa c k Hc Hk). specialize (Hpb c k Hc Hk).
    replace (c * H * W + k) with (Z.of_nat i) in Hpa, Hpb by lia.
    unfold get in Hpa at 1. unfold get in Hpb at 1.
    destruct (Z.ltb_spec (Z.of_nat i) 0); [lia |].
    rewrite Nat2Z.id in Hpa, Hpb. rewrite Hpa, Hpb. do 2 f_equal.
    replace k with (y * W + x) by lia. by apply Hrgb.
  - rewrite !(proj2 (lookup_ge_None _ _)) by lia. done.
Qed.

Lemma tensor_ignores_alpha_witness :
  image_tensor Examples.dot_grid = image_tensor Examples.blank_grid3.
Proof.
  assert (0 <= width Examples.dot_grid) as HW by (simpl; lia).
  assert (0 <= height Examples.dot_grid) as HH by (simpl; lia).
  apply (tensor_ignores_alpha Examples.dot_grid Examples.blank_grid3 HW HH eq_refl eq_refl).
  intros c x y Hc Hx Hy. simpl in Hx, Hy.
  assert (c = 0 \/ c = 1 \/ c = 2) as [-> | [-> | ->]] by lia;
  assert (x = 0 \/ x = 1 \/ x = 2) as [-> | [-> | ->]] by lia;
  assert (y = 0 \/ y = 1 \/ y = 2) as [-> | [-> | ->]] by lia; reflexivity.
Defined.

(** ** The normalised values *)

Lemma SFltb_irrefl (a : spec_float) : SFltb a a = false.
Proof.
  unfold SFltb, SFcompare. destruct a as [s | s | | s m e]; try done.
  - by destruct s.
  - rewrite Z.compare_refl, Pos.compare_cont_refl. by destruct s.
Qed.

Lemma increasing_lookup (l : list spec_float) :
  Path.increasing l = true ->
  forall (i j : nat) a b, (i < j)%nat -> l !! i = Some a -> l !! j = Some b ->
    SFltb a b = true.
Proof.
  induction l as [| v l IH]; intros Hinc i j a b Hij Hi Hj; [done |].
  cbn [Path.increasing] in Hinc. apply andb_true_iff in Hinc as [Hall Hrest].
  destruct j as [| j]; [lia |]. cbn in Hj.
  destruct i as [| i].
  - injection Hi as <-. rewrite forallb_forall in Hall. apply Hall.
    apply list_elem_of_In. by apply (list_elem_of_lookup_2 _ j).
  - cbn in Hi. apply (IH Hrest i j); [lia | done | done].
Qed.

Lemma channels_increasing :
  forallb (fun c => Path.increasing (Path.channel_values c)) [0; 1; 2] = true.
Proof. vm_compute. reflexivity. Qed.

(** X13: for each channel the value stored in the tensor grows strictly with
    the colour byte (as binary32 numbers, after both roundings), so no two
    bytes share a value and no byte gives [NaN]. *)
Theorem normalise_increasing (c b b' : Z) :
  0 <= c < 3 -> 0 <= b -> b < b' -> b' <= 255 ->
  SFltb (normalise c (Some b)) (normalise c (Some b')) = true.
Proof.
  intros Hc Hb Hlt Hb'.
  assert (Path.increasing (Path.channel_values c) = true) as Hinc.
  { pose proof channels_increasing as Hall. rewrite forallb_forall in Hall.
    apply Hall. assert (c = 0 \/ c = 1 \/ c = 2) as [-> | [-> | ->]] by lia;
      simpl; tauto. }
  assert (forall v, 0 <= v <= 255 ->
            Path.channel_values c !! Z.to_nat v = Some (normalise c (Some v))) as Hval.
  { intros v Hv. unfold Path.channel_values.
    change (map ?f ?l) with (f <$> l). rewrite list_lookup_fmap.
    rewrite lookup_seqZ_lt by lia. cbn [fmap option_fmap option_map].
    do 3 f_equal. lia. }
  apply (increasing_lookup _ Hinc (Z.to_nat b) (Z.to_nat b')); [lia | |];
    apply Hval; lia.
Qed.

Lemma normalise_increasing_witness :
  SFltb (normalise 1 (Some 127)) (normalise 1 (Some 128)) = true.
Proof.
  assert (0 <= 1 < 3) as Hc by lia. assert (0 <= 127) as Hb by lia.
  assert (127 < 128) as Hlt by lia. assert (128 <= 255) as Hb' by lia.
  exact (normalise_increasing 1 127 128 Hc Hb Hlt Hb').
Defined.

Lemma normalise_inj (c b b' : Z) :
  0 <= c < 3 -> 0 <= b <= 255 -> 0 <= b' <= 255 ->
  normalise c (Some b) = normalise c (Some b') -> b = b'.
Proof.
  intros Hc Hb Hb' Heq.
  destruct (Z.lt_trichotomy b b') as [Hlt | [-> | Hgt]]; [| done |]; exfalso.
  - assert (SFltb (normalise c (Some b)) (normalise c (Some b')) = true) as Hl.
    { pose proof channels_increasing as Hall. rewrite forallb_forall in Hall.
      assert (Path.increasing (Path.channel_values c) = true) as Hinc.
      { apply Hall. assert (c = 0 \/ c = 1 \/ c = 2) as [-> | [-> | ->]] by lia;
          simpl; tauto. }
      apply (increasing_lookup _ Hinc (Z.to_nat b) (Z.to_nat b')); [lia | |];
        unfold Path.channel_values; change (map ?f ?l) with (f <$> l);
        rewrite list_lookup_fmap, lookup_seqZ_lt by lia;
        cbn [fmap option_fmap option_map]; do 3 f_equal; lia. }
    rewrite Heq, SFltb_irrefl in Hl. done.
  - assert (SFltb (normalise c (Some b')) (normalise c (Some b)) = true) as Hl.
    { pose proof channels_increasing as Hall. rewrite forallb_forall in Hall.
      assert (Path.increasing (Path.channel_values c) = true) as Hinc.
      { apply Hall. assert (c = 0 \/ c = 1 \/ c = 2) as [-> | [-> | ->]] by lia;
          simpl; tauto. }
      apply (increasing_lookup _ Hinc (Z.to_nat b') (Z.to_nat b)); [lia | |];
        unfold Path.channel_values; change (map ?f ?l) with (f <$> l);
        rewrite list_lookup_fmap, lookup_seqZ_lt by lia;
        cbn [fmap option_fmap option_map]; do 3 f_equal; lia. }
    rewrite Heq, SFltb_irrefl in Hl. done.
Qed.

(** X14: the tensor keeps the colours: two well-formed canvases with bytes in
    [0, 255] that give the same tensor have the same size and the same
    red, green and blue byte at every pixel. *)
Theorem tensor_determines_rgb (a b : ImageData) :
  wf_image a -> wf_image b ->
  Forall (fun v => 0 <= v <= 255) (data a) ->
  Forall (fun v => 0 <= v <= 255) (data b) ->
  image_tensor a = image_tensor b ->
  width b = width a /\ height b = height a /\
  forall c x y, 0 <= c < 3 -> 0 <= x < width a -> 0 <= y < height a ->
    get (data a) ((y * width a + x) * 4 + c) =
    get (data b) ((y * width a + x) * 4 + c).
Proof.
  intros (HWa & HHa & Hla) (HWb & HHb & Hlb) Hba Hbb Heq.
  unfold image_tensor in Heq. injection Heq as HH HW Hdata.
  rewrite <- HW, <- HH in *. split; [done |]. split; [done |].
  destruct (tensor_linear a) as [_ Hpa]; [lia | lia |].
  destruct (tensor_linear b) as [_ Hpb]; [lia | lia |].
  rewrite <- HW, <- HH in Hpb.
  set (W := width a) in *. set (H := height a) in *.
  intros c x y Hc Hx Hy.
  pose proof (pixel_index_bound W H x y Hx Hy) as Hk.
  assert (0 <= y * W + x < H * W) as Hk' by lia.
  specialize (Hpa c _ Hc Hk'). specialize (Hpb c _ Hc Hk').
  rewrite Hdata, Hpb in Hpa. injection Hpa as Hn.
  assert (forall d : ImageData, Z.of_nat (length (data d)) = 4 * W * H ->
            Forall (fun v => 0 <= v <= 255) (data d) ->
            exists v, get (data d) ((y * W + x) * 4 + c) = Some v /\ 0 <= v <= 255)
    as Hbyte.
  { intros d Hl Hd. unfold get.
    destruct (Z.ltb_spec ((y * W + x) * 4 + c) 0); [lia |].
    destruct (lookup_lt_is_Some_2 (data d) (Z.to_nat ((y * W + x) * 4 + c)))
      as [v Hv]; [lia |].
    exists v. split; [done |]. by apply (Forall_lookup_1 _ _ _ _ Hd Hv). }
  destruct (Hbyte a Hla Hba) as (va & Hva & Hra).
  destruct (Hbyte b Hlb Hbb) as (vb & Hvb & Hrb).
  rewrite Hva, Hvb in *. f_equal.
  symmetry. by apply (normalise_inj c).
Qed.

Lemma tensor_determines_rgb_witness :
  get (data Examples.dot_grid) ((1 * 3 + 1) * 4 + 2) =
  get (data Examples.blank_grid3) ((1 * 3 + 1) * 4 + 2).
Proof.
  assert (wf_image Examples.dot_grid) as Hwa by (repeat split; reflexivity).
  assert (wf_image Examples.blank_grid3) as Hwb by (repeat split; reflexivity).
  assert (Forall (fun v => 0 <= v <= 255) (data Examples.dot_grid)) as Hba
    by (simpl; repeat constructor; lia).
  assert (Forall (fun v => 0 <= v <= 255) (data Examples.blank_grid3)) as Hbb
    by (simpl; repeat constructor; lia).
  assert (image_tensor Examples.dot_grid = image_tensor Examples.blank_grid3) as Heq
    by (vm_compute; reflexivity).
  assert (0 <= 2 < 3) as H2 by lia. assert (0 <= 1 < 3) as H1 by lia.
  exact (proj2 (proj2 (tensor_determines_rgb _ _ Hwa Hwb Hba Hbb Heq)) 2 1 1 H2 H1 H1).
Defined.

End TensorExtras.

(** ** Editing the prompt points *)

Module PointsExtras.
Import Run.

(** X15: [undoPoint] takes back exactly the last click: after a click it gives
    the list as it was; on a list with points it removes the last one and
    nothing else; only the empty list is left as it is. *)
Theorem undo_takes_back_last_click (pp : list PromptPoint) :
  (forall p, undoPoint (add_point pp p) = pp) /\
  (pp <> [] -> exists p, pp = add_point (undoPoint pp) p) /\
  (undoPoint pp = pp <-> pp = []) /\
  length (undoPoint pp) = (length pp - 1)%nat.
Proof.
  assert (forall l (p : PromptPoint), undoPoint (add_point l p) = l) as Hundo.
  { intros l p. unfold undoPoint, add_point. rewrite length_app. cbn [length].
    replace (length l + 1 - 1)%nat with (length l) by lia.
    by rewrite take_app_length. }
  split; [apply Hundo |].
  assert (length (undoPoint pp) = (length pp - 1)%nat) as Hlen
    by (unfold undoPoint; rewrite length_take; lia).
  split; [| split; [| done]].
  - intros Hne. destruct (exists_last Hne) as (l & p & ->).
    exists p. fold (add_point l p). by rewrite Hundo.
  - split; [| by intros ->]. intros Heq. rewrite Heq in Hlen.
    destruct pp; [done | simpl in Hlen; lia].
Qed.

End PointsExtras.

(** ** How close the mapped coordinate is to the exact quotient *)

Module FloatExtras.
Import Num FloatFacts.

(** From the integer division of the mantissas to the quotient of the
    integers: a mantissa [Mq] within one unit of the scaled quotient [q] is
    within one unit of [x * 2^j / W]. *)
Lemma quotient_bounds (x W Mx Mw q r ax aw c j Mq : Z) :
  0 < W -> 0 <= ax -> 0 <= aw -> 0 <= c -> 0 <= j ->
  Mx = x * 2 ^ ax -> Mw = W * 2 ^ aw ->
  Mx * 2 ^ 53 = Mw * q + r -> 0 <= r < Mw ->
  j + aw + c = 53 + ax ->
  (Mq - 1) * 2 ^ c <= q -> q + 1 <= (Mq + 1) * 2 ^ c ->
  (Mq - 1) * W <= x * 2 ^ j < (Mq + 1) * W.
Proof.
  intros HW Hax Haw Hc Hj HMx HMw Hqr Hr Hexp Hlo Hhi.
  assert (0 < 2 ^ aw) as Hpa by (apply Z.pow_pos_nonneg; lia).
  assert (0 < 2 ^ c) as Hpc by (apply Z.pow_pos_nonneg; lia).
  set (K := 2 ^ aw * 2 ^ c).
  assert (0 < K) as HK by (unfold K; lia).
  assert (x * 2 ^ j * K = Mw * q + r) as Hscale.
  { rewrite <- Hqr, HMx. unfold K.
    rewrite <- !Z.mul_assoc, <- !Z.pow_add_r by lia.
    f_equal. f_equal. lia. }
  assert (forall M, M * W * K = M * 2 ^ c * Mw) as HM
    by (intros M; rewrite HMw; unfold K; ring).
  split.
  - apply (Z.mul_le_mono_pos_r _ _ K HK). rewrite Hscale, HM.
    assert ((Mq - 1) * 2 ^ c * Mw <= q * Mw)
      by (apply Z.mul_le_mono_nonneg_r; lia).
    lia.
  - apply (Z.mul_lt_mono_pos_r K); [done |]. rewrite Hscale, HM.
    assert ((q + 1) * Mw <= (Mq + 1) * 2 ^ c * Mw)
      by (apply Z.mul_le_mono_nonneg_r; lia).
    lia.
Qed.

(** [x / W] for integers [0 < x < W < 2^53]: the 53-digit mantissa [Mq] of
    the quotient, at its exponent [Eq], is within one unit of the exact
    quotient. *)
Lemma div_accuracy (x W : Z) :
  0 < x < W -> W < 2 ^ 53 ->
  exists Mq Eq, normal (div (of_int x) (of_int W)) Mq Eq /\ -110 <= Eq <= -53 /\
    (Mq - 1) * W <= x * 2 ^ (- Eq) < (Mq + 1) * W.
Proof.
  intros Hx HW.
  destruct (of_int_normal x) as (Mx & Ex & [Hfx HMx] & HEx & Hmx); [lia |].
  destruct (of_int_normal W) as (Mw & EW & [HfW HMW] & HEW & Hmw); [lia |].
  destruct (normal_compare x W Mx Ex Mw EW) as [Hexp Hman]; try done; try lia.
  rewrite Hfx, HfW. unfold div, SFdiv, SFdiv_core_binary.
  rewrite !Z2Pos.id by lia.
  assert (Zdigits2 Mx = 53) as -> by (apply digits_unique; simpl; lia).
  assert (Zdigits2 Mw = 53) as -> by (apply digits_unique; simpl; lia).
  assert (Z.min (fexp prec64 emax64 (53 + Ex - (53 + EW))) (Ex - EW) = Ex - EW - 53) as ->
    by (unfold fexp, emin, prec64, emax64; lia).
  replace (Ex - EW - (Ex - EW - 53)) with 53 by lia. cbv iota.
  rewrite Z.shiftl_mul_pow2 by lia.
  pose proof (Z_div_mod (Mx * 2 ^ 53) Mw) as Hdm.
  destruct (Z.div_eucl (Mx * 2 ^ 53) Mw) as [q r].
  destruct Hdm as [Hqr Hr]; [lia |]. cbn [xorb].
  assert (forall c j Mq, 0 <= c -> 0 <= j -> j + - EW + c = 53 + - Ex ->
            (Mq - 1) * 2 ^ c <= q -> q + 1 <= (Mq + 1) * 2 ^ c ->
            (Mq - 1) * W <= x * 2 ^ j < (Mq + 1) * W) as Hbounds.
  { intros c j Mq Hc Hj Hsum Hlo Hhi.
    apply (quotient_bounds x W Mx Mw q r (- Ex) (- EW) c j Mq); try done; lia. }
  change (2 ^ 52) with 4503599627370496 in *.
  change (2 ^ 53) with 9007199254740992 in *.
  assert (4503599627370496 <= q < 18014398509481984) as Hq by nia.
  assert (Zdigits2 q = 53 \/ Zdigits2 q = 54) as Hd.
  { destruct (Z.lt_ge_cases q 9007199254740992).
    - left. apply digits_unique; simpl; lia.
    - right. apply digits_unique; simpl; lia. }
  pose proof (round_aux_spec q (Ex - EW - 53) (new_location Mw r)) as Hra.
  cbv zeta in Hra.
  change (2 ^ 52) with 4503599627370496 in Hra.
  change (2 ^ 53) with 9007199254740992 in Hra.
  destruct Hd as [Hd | Hd]; rewrite Hd in Hra.
  - (* the quotient has 53 digits: nothing is cut off *)
    change (53 - 53) with 0 in Hra. rewrite Z.div_1_r in Hra.
    destruct Hra as (R & HR & _ & ->); try lia.
    assert (q < 9007199254740992) as Hq53.
    { destruct (digits_bounds q) as [_ Hb]; [lia |]. rewrite Hd in Hb. simpl in Hb. lia. }
    assert (R = q \/ R = q + 1) as HR' by (destruct HR as [-> | [-> _]]; auto).
    destruct (Z.ltb_spec R 9007199254740992) as [Hlt | Hge].
    + exists R, (Ex - EW - 53 + 0). split; [split; [done | lia] |]. split; [lia |].
      apply (Hbounds 0); try lia; change (2 ^ 0) with 1; lia.
    + exists 4503599627370496, (Ex - EW - 53 + 0 + 1).
      split; [split; [done | lia] |].
      assert (Ex <> EW) as Hne.
      { intros ->. specialize (Hman eq_refl). nia. }
      split; [lia |].
      apply (Hbounds 1); try lia; change (2 ^ 1) with 2; lia.
  - (* the quotient has 54 digits: one is cut off *)
    change (54 - 53) with 1 in Hra. change (2 ^ 1) with 2 in Hra.
    destruct Hra as (R & HR & Hq2 & ->); try lia.
    assert (9007199254740992 <= q) as Hq54.
    { destruct (digits_bounds q) as [_ Hb]; [lia |]. rewrite Hd in Hb. simpl in Hb. lia. }
    assert (Mw <= Mx) as Hge by nia.
    assert (Ex < EW) as Hlt.
    { destruct (Z.eq_dec Ex EW) as [Heq | Hne]; [| lia]. specialize (Hman Heq). lia. }
    pose proof (Z.div_mod q 2 ltac:(lia)) as Hq2'.
    pose proof (Z.mod_pos_bound q 2 ltac:(lia)) as Hq2''.
    assert (R = q / 2 \/ R = q / 2 + 1) as HR' by (destruct HR as [-> | [-> _]]; auto).
    destruct (Z.ltb_spec R 9007199254740992) as [HltR | HgeR].
    + exists R, (Ex - EW - 53 + 1). split; [split; [done | lia] |]. split; [lia |].
      apply (Hbounds 1); try lia; change (2 ^ 1) with 2; lia.
    + exists 4503599627370496, (Ex - EW - 53 + 1 + 1).
      split; [split; [done | lia] |].
      assert (Ex - EW <> -1) as Hne.
      { intros Heq.
        destruct HR as [-> | [-> Hcut]]; [lia |].
        unfold half_cut in Hcut. simpl in Hcut.
        change (2 ^ (1 - 1)) with 1 in Hcut. change (2 ^ 1) with 2 in Hcut.
        assert (q = 18014398509481983) as -> by lia.
        nia. }
      split; [lia |].
      apply (Hbounds 2); try lia; change (2 ^ 2) with 4; lia.
Qed.

(** A number below one times an integer [M]: the floor of the rounded
    product is not below the floor of the exact product, and exceeds the
    exact product by at most one part in [2^52]. *)
Lemma mul_floor_accuracy (f : spec_float) (Mq Eq M : Z) :
  normal f Mq Eq -> -110 <= Eq <= -53 -> 0 < M < 2 ^ 53 ->
  exists s, floor (mul f (of_int M)) = Some s /\
    Mq * M / 2 ^ (- Eq) <= s /\
    s * 2 ^ (- Eq) * 2 ^ 52 <= Mq * M * (2 ^ 52 + 1).
Proof.
  intros [Hf HMq] HEq HM.
  destruct (of_int_normal M) as (mM & eM & [HfM HmM] & HeM & HmM'); [lia |].
  rewrite Hf, HfM. unfold mul, SFmul. cbn [xorb].
  rewrite Pos2Z.inj_mul, !Z2Pos.id by lia.
  set (m := Mq * mM).
  set (j := - Eq). set (a := - eM) in *.
  assert (0 < 2 ^ a) as Hpa by (apply Z.pow_pos_nonneg; lia).
  assert (0 < 2 ^ j) as Hpj by (apply Z.pow_pos_nonneg; lia).
  assert (2 ^ 104 <= m < 2 ^ 106) as Hm.
  { change (2 ^ 104) with (2 ^ 52 * 2 ^ 52). change (2 ^ 106) with (2 ^ 53 * 2 ^ 53).
    unfold m. split.
    - apply Z.mul_le_mono_nonneg; lia.
    - apply Z.mul_lt_mono_nonneg; lia. }
  assert (Zdigits2 m = 105 \/ Zdigits2 m = 106) as Hd.
  { destruct (Z.lt_ge_cases m (2 ^ 105)).
    - left. apply digits_unique; [lia |]. change (105 - 1) with 104. lia.
    - right. apply digits_unique; [lia |]. change (106 - 1) with 105. lia. }
  pose proof (round_aux_spec m (Eq + eM) loc_Exact) as Hra. cbv zeta in Hra.
  set (n := Zdigits2 m - 53) in *.
  assert (n = 52 \/ n = 53) as Hn by (unfold n; lia).
  assert (0 < 2 ^ n) as Hpn by (apply Z.pow_pos_nonneg; lia).
  destruct Hra as (R & HR & Hq & Hres); [lia | lia | lia | lia |].
  rewrite Hres.
  assert (m / 2 ^ n <= R <= m / 2 ^ n + 1) as HR'
    by (destruct HR as [-> | [-> _]]; lia).
  set (t := j + a - n).
  assert (0 <= t) as Ht by (unfold t, j, a; lia).
  assert (0 < 2 ^ t) as Hpt by (apply Z.pow_pos_nonneg; lia).
  assert (2 ^ j * 2 ^ a = 2 ^ n * 2 ^ t) as Hsplit.
  { rewrite <- !Z.pow_add_r by lia. f_equal. unfold t. lia. }
  assert (m = Mq * M * 2 ^ a) as Hm' by (unfold m; rewrite HmM'; fold a; ring).
  assert (R <= M * 2 ^ t) as HRM.
  { assert (2 ^ 53 <= 2 ^ j) as Hj53 by (apply Z.pow_le_mono_r; unfold j; lia).
    assert (m < 2 ^ n * (M * 2 ^ t)) as Hlt.
    { replace (2 ^ n * (M * 2 ^ t)) with (2 ^ j * (M * 2 ^ a))
        by (transitivity (M * (2 ^ j * 2 ^ a)); [ring | rewrite Hsplit; ring]).
      rewrite Hm', <- Z.mul_assoc. apply Z.mul_lt_mono_pos_r; lia. }
    apply Z.div_lt_upper_bound in Hlt; lia. }
  (* the floor of the result is [R / 2^t] *)
  assert (floor (if R <? 2 ^ 53 then S754_finite false (Z.to_pos R) (Eq + eM + n)
                 else S754_finite false (Z.to_pos (2 ^ 52)) (Eq + eM + n + 1)) =
          Some (R / 2 ^ t)) as Hfloor.
  { replace (Eq + eM + n) with (- t) by (unfold t, j, a; lia).
    destruct (Z.ltb_spec R (2 ^ 53)) as [Hlt | Hge].
    - cbn [floor]. rewrite Z2Pos.id by lia.
      change (Z.shiftl R (- t)) with (Z.shiftr R t).
      by rewrite Z.shiftr_div_pow2 by lia.
    - assert (R = 2 ^ 53) as HR53.
      { assert (m / 2 ^ n < 2 ^ 53) by lia. lia. }
      assert (1 <= t) as Ht1.
      { destruct (Z.eq_dec t 0) as [Ht0 | ?]; [| lia]. exfalso.
        rewrite Ht0 in HRM. change (2 ^ 0) with 1 in HRM. lia. }
      cbn [floor]. rewrite Z2Pos.id by lia.
      replace (- t + 1) with (- (t - 1)) by lia.
      change (Z.shiftl (2 ^ 52) (- (t - 1))) with (Z.shiftr (2 ^ 52) (t - 1)).
      rewrite Z.shiftr_div_pow2 by lia. f_equal.
      rewrite HR53.
      replace (2 ^ 53) with (2 * 2 ^ 52) by done.
      replace (2 ^ t) with (2 * 2 ^ (t - 1)).
      + rewrite Z.div_mul_cancel_l; [done | | lia].
        apply Z.pow_nonzero; lia.
      + rewrite <- Z.pow_succ_r by lia. f_equal. lia. }
  rewrite Hfloor. eexists. split; [done |]. split.
  - (* not below the floor of the exact product *)
    assert (Mq * M / 2 ^ j = m / 2 ^ n / 2 ^ t) as ->.
    { rewrite Z.div_div by lia. rewrite <- Hsplit, Hm'.
      rewrite Z.div_mul_cancel_r by lia. done. }
    apply Z.div_le_mono; lia.
  - (* above the exact product by at most one part in [2^52] *)
    assert (R / 2 ^ t * 2 ^ t <= R) as Hs.
    { rewrite Z.mul_comm. apply Z.mul_div_le. lia. }
    assert (m / 2 ^ n * 2 ^ n <= m) as Hfl.
    { rewrite Z.mul_comm. apply Z.mul_div_le. lia. }
    assert (2 ^ n * 2 ^ 52 <= m) as Hbig.
    { destruct (digits_bounds m) as [_ [Hb _]]; [lia |].
      replace (Zdigits2 m - 1) with (n + 52) in Hb by (unfold n; lia).
      rewrite Z.pow_add_r in Hb by lia. done. }
    apply (Z.mul_le_mono_pos_r _ _ (2 ^ a)); [done |].
    replace (R / 2 ^ t * 2 ^ j * 2 ^ 52 * 2 ^ a)
      with (R / 2 ^ t * 2 ^ t * (2 ^ n * 2 ^ 52))
      by (transitivity (R / 2 ^ t * 2 ^ 52 * (2 ^ n * 2 ^ t));
          [ring | rewrite <- Hsplit; ring]).
    replace (Mq * M * (2 ^ 52 + 1) * 2 ^ a) with (m * 2 ^ 52 + m) by (rewrite Hm'; ring).
    assert (R / 2 ^ t * 2 ^ t * (2 ^ n * 2 ^ 52) <= R * (2 ^ n * 2 ^ 52))
      by (apply Z.mul_le_mono_nonneg_r; lia).
    assert (R * (2 ^ n * 2 ^ 52) <= (m / 2 ^ n + 1) * (2 ^ n * 2 ^ 52))
      by (apply Z.mul_le_mono_nonneg_r; lia).
    assert ((m / 2 ^ n + 1) * (2 ^ n * 2 ^ 52) =
            m / 2 ^ n * 2 ^ n * 2 ^ 52 + 2 ^ n * 2 ^ 52) as Heq by ring.
    assert (m / 2 ^ n * 2 ^ n * 2 ^ 52 <= m * 2 ^ 52)
      by (apply Z.mul_le_mono_nonneg_r; lia).
    lia.
Qed.

(** The arithmetic of the two roundings: a quotient mantissa within one
    unit of [x * J / W] and a product within one part in [2^52] cannot move
    the floor above the exact one, nor more than one below it, nor at all
    when [x * MW / W] is not an integer. *)
Lemma mapping_arith (x W MW Mq J s : Z) :
  0 < x < W -> 0 < MW -> W * MW <= 2 ^ 50 -> 2 ^ 53 <= J -> 0 < Mq ->
  (Mq - 1) * W <= x * J < (Mq + 1) * W ->
  Mq * MW / J <= s -> s * J * 2 ^ 52 <= Mq * MW * (2 ^ 52 + 1) ->
  x * MW / W - 1 <= s <= x * MW / W /\
  ((x * MW) mod W <> 0 -> s = x * MW / W).
Proof.
  intros Hx HMW Hsize HJ HMq [Hlo Hhi] Hfloor Hup.
  change (2 ^ 50) with 1125899906842624 in *.
  change (2 ^ 52) with 4503599627370496 in *.
  change (2 ^ 53) with 9007199254740992 in *.
  pose proof (Z.div_mod (x * MW) W ltac:(lia)) as Hdm.
  pose proof (Z.mod_pos_bound (x * MW) W ltac:(lia)) as Hrho.
  set (k := x * MW / W) in *. set (rho := (x * MW) mod W) in *.
  assert (MW <= 1125899906842624) as HMW' by nia.
  assert (0 <= k) as Hk by (apply Z.div_pos; nia).
  (* [x * J * MW] written with [k] *)
  assert (x * J * MW = W * (k * J) + rho * J) as Hxj
    by (transitivity (x * MW * J); [ring | rewrite Hdm; ring]).
  assert (x * J * MW < W * (Mq * MW) + W * MW) as Hhi'.
  { replace (W * (Mq * MW) + W * MW) with ((Mq + 1) * W * MW) by ring.
    apply Z.mul_lt_mono_pos_r; lia. }
  assert (W * (Mq * MW) - W * MW <= x * J * MW) as Hlo'.
  { replace (W * (Mq * MW) - W * MW) with ((Mq - 1) * W * MW) by ring.
    apply Z.mul_le_mono_nonneg_r; lia. }
  assert (0 <= rho * J) as HrJ by (apply Z.mul_nonneg_nonneg; lia).
  assert (W * MW <= W * J) as HWJ by (apply Z.mul_le_mono_nonneg_l; lia).
  (* at most one below *)
  assert ((k - 1) * J < Mq * MW) as Hbelow.
  { apply (Z.mul_lt_mono_pos_l W); [lia |].
    replace (W * ((k - 1) * J)) with (W * (k * J) - W * J) by ring. lia. }
  assert (k - 1 <= s) as Hs1.
  { assert (k - 1 <= Mq * MW / J); [| lia].
    apply Z.div_le_lower_bound; [lia |]. rewrite Z.mul_comm. lia. }
  (* exact when the quotient is not an integer *)
  assert (rho <> 0 -> k <= s) as Hs2.
  { intros Hne.
    assert (J <= rho * J) as HJr.
    { rewrite <- (Z.mul_1_l J) at 1. apply Z.mul_le_mono_nonneg_r; lia. }
    assert (k * J < Mq * MW) as Hkj.
    { apply (Z.mul_lt_mono_pos_l W); [lia |]. lia. }
    assert (k <= Mq * MW / J); [| lia].
    apply Z.div_le_lower_bound; [lia |]. rewrite Z.mul_comm. lia. }
  (* never above *)
  assert (s <= k) as Hs3.
  { destruct (Z.le_gt_cases s k) as [? | Hgt]; [done |]. exfalso.
    assert (x * MW + 1 <= W * (k + 1)) as Hk1 by lia.
    (* [s * J * 2^52 * W] from below *)
    assert ((x * MW + 1) * (J * 4503599627370496) <= W * s * (J * 4503599627370496)) as H1.
    { apply Z.mul_le_mono_nonneg_r; [lia |].
      transitivity (W * (k + 1)); [done |]. apply Z.mul_le_mono_nonneg_l; lia. }
    (* and from above *)
    assert (W * s * (J * 4503599627370496) <= W * (Mq * MW) * 4503599627370497) as H2.
    { replace (W * s * (J * 4503599627370496)) with (W * (s * J * 4503599627370496)) by ring.
      replace (W * (Mq * MW) * 4503599627370497) with (W * (Mq * MW * (4503599627370496 + 1))) by ring.
      apply Z.mul_le_mono_nonneg_l; lia. }
    assert (W * (Mq * MW) * 4503599627370497 <= (x * J * MW + W * MW) * 4503599627370497) as H3.
    { apply Z.mul_le_mono_nonneg_r; lia. }
    assert (x * MW < 1125899906842624) as Hxm.
    { assert (x * MW < W * MW) by (apply Z.mul_lt_mono_pos_r; lia). lia. }
    assert (x * J * MW = x * MW * J) as Hcomm by ring.
    assert (x * MW * J <= 1125899906842624 * J) as H4
      by (apply Z.mul_le_mono_nonneg_r; lia).
    assert (0 <= x * MW * J) as H5 by (apply Z.mul_nonneg_nonneg; nia).
    replace ((x * MW + 1) * (J * 4503599627370496))
      with (x * MW * J * 4503599627370496 + J * 4503599627370496) in H1 by ring.
    rewrite Hcomm in H3. lia. }
  split; [lia |]. intros Hne. specialize (Hs2 Hne). lia.
Qed.

Lemma src_coord_close (x W MW : Z) :
  0 < x < W -> 0 < MW -> W * MW <= 2 ^ 50 ->
  exists s, Run.src_coord x W MW = Some s /\
    x * MW / W - 1 <= s <= x * MW / W /\
    ((x * MW) mod W <> 0 -> s = x * MW / W).
Proof.
  intros Hx HMW Hsize.
  assert (W < 2 ^ 53 /\ MW < 2 ^ 53) as [HW53 HMW53].
  { change (2 ^ 50) with 1125899906842624 in Hsize.
    change (2 ^ 53) with 9007199254740992.
    assert (W * 1 <= W * MW) by (apply Z.mul_le_mono_nonneg_l; lia).
    assert (1 * MW <= W * MW) by (apply Z.mul_le_mono_nonneg_r; lia). lia. }
  unfold Run.src_coord.
  destruct (div_accuracy x W) as (Mq & Eq & Hq & HEq & Hbounds); [lia | lia |].
  destruct (mul_floor_accuracy _ Mq Eq MW Hq HEq) as (s & Hs & Hfloor & Hup); [lia |].
  exists s. split; [done |].
  apply (mapping_arith x W MW Mq (2 ^ (- Eq)) s); try done; try lia.
  - apply Z.pow_le_mono_r; lia.
  - destruct Hq as [_ HMq]. change (2 ^ 52) with 4503599627370496 in HMq. lia.
Qed.

(** X16: the mapped coordinate against the exact one. For an image and a mask
    whose widths multiply to at most [2^50], the source index
    [floor((x / W) * MW)] computed in binary64 is the exact
    [floor(x * MW / W)] whenever [x * MW / W] is not an integer; when it is
    an integer the computed index is that integer or the one below it. *)
Theorem src_coord_accuracy (x W MW : Z) :
  0 <= x < W -> 0 < MW -> W * MW <= 2 ^ 50 ->
  exists s, Run.src_coord x W MW = Some s /\
    0 <= s /\ x * MW / W - 1 <= s <= x * MW / W /\
    ((x * MW) mod W <> 0 -> s = x * MW / W).
Proof.
  intros Hx HMW Hsize.
  destruct (Z.eq_dec x 0) as [-> | Hne].
  - exists 0. split.
    + assert (W < 2 ^ 53 /\ MW < 2 ^ 53) as [HW53 HMW53].
      { change (2 ^ 50) with 1125899906842624 in Hsize.
        change (2 ^ 53) with 9007199254740992.
        assert (W * 1 <= W * MW) by (apply Z.mul_le_mono_nonneg_l; lia).
        assert (1 * MW <= W * MW) by (apply Z.mul_le_mono_nonneg_r; lia). lia. }
      unfold Run.src_coord.
      destruct (of_int_normal W) as (Ms & Es & [-> _] & _); [lia |].
      destruct (of_int_normal MW) as (Mm & Em & [-> _] & _); [lia |]. done.
    + rewrite Z.mul_0_l, Z.div_0_l, Z.mod_0_l by lia. split; [lia |]. split; [lia | done].
  - destruct (src_coord_close x W MW) as (s & Hs & Hb & Hexact); [lia | done | done |].
    exists s. split; [done |]. split; [| done].
    destruct (src_coord_in_range x W MW) as (s' & Hs' & Hr); [done | | |].
    + change (2 ^ 50) with 1125899906842624 in Hsize.
      change (2 ^ 53) with 9007199254740992.
      assert (W * 1 <= W * MW) by (apply Z.mul_le_mono_nonneg_l; lia). lia.
    + change (2 ^ 50) with 1125899906842624 in Hsize.
      change (2 ^ 53) with 9007199254740992.
      assert (1 * MW <= W * MW) by (apply Z.mul_le_mono_nonneg_r; lia). lia.
    + rewrite Hs in Hs'. injection Hs' as ->. lia.
Qed.

Lemma src_coord_accuracy_witness :
  Run.src_coord 29 100 100 = Some 28 /\
  exists s, Run.src_coord 29 100 100 = Some s /\ 29 - 1 <= s <= 29.
Proof.
  assert (0 <= 29 < 100) as Hx by lia. assert (0 < 100) as HM by lia.
  assert (100 * 100 <= 2 ^ 50) as Hsize by (simpl; lia).
  split; [reflexivity |].
  destruct (src_coord_accuracy 29 100 100 Hx HM Hsize) as (s & Hs & _ & Hb & _).
  exists s. split; [exact Hs |]. exact Hb.
Defined.



End FloatExtras.
